(** * Battlecode client: playback loop and configuration defaults

    A shallow embedding of the replay viewer's time-control code:

    - [config.ts]: the [defaults] function, in its two revisions (the
      five-field one and the thirteen-field one);
    - [html/controls.ts]: the [Controls] methods that forward user intents to
      the callbacks installed by the client;
    - the client's [runMatch]: the closure variables of the playback loop, the
      four callbacks, the timeline [mousedown] handler, and the per-frame
      [loop] function.

    The two revisions of the client have the same callbacks and the same
    [loop]; one set of definitions stands for both.  Effects that only touch
    the page (button images, the stats bar, console output) are left out:
    they never write a variable of the loop.

    JavaScript numbers are modelled by exact rationals ([Q]); the values
    [NaN], the infinities and negative zero are outside this model and so is
    rounding.  Turn numbers supplied by the engine are integers ([Z]).  The
    engine ([Match]) and the rate tracker ([TickCounter]) are parameters of
    the development, given as type classes. *)

From Stdlib Require Import ZArith QArith Qround Qabs Qminmax Lia Lqa Bool List.
From stdpp Require Import gmap strings.
Import ListNotations.

Set Warnings "-register-all".
#[local] Open Scope Z_scope.

(** ** JavaScript values and the [||] operator *)

(** The values an untyped [supplied] argument can carry.  [JNaN] is kept
    apart from [JNum] because it is falsy while no rational stands for it. *)
Inductive JSValue : Type :=
  | JUndefined
  | JNull
  | JBool (b : bool)
  | JNum (q : Q)
  | JNaN
  | JStr (s : string)
  | JObj (fields : gmap string JSValue).

(** [ToBoolean]: the falsy values are [undefined], [null], [false], [0],
    [NaN] and the empty string; every object is truthy. *)
Definition truthy (v : JSValue) : bool :=
  match v with
  | JUndefined | JNull | JNaN => false
  | JBool b => b
  | JNum q => negb (Qeq_bool q 0)
  | JStr s => negb (String.eqb s "")
  | JObj _ => true
  end.

(** [a || b] evaluates to [a] when [a] is truthy and to [b] otherwise. *)
Definition js_or (a b : JSValue) : JSValue :=
  if truthy a then a else b.

(** Property read [v.k] for the option names used by [defaults].  None of
    them is defined on a prototype, so reading them from a primitive or
    from an object that lacks them gives [undefined]. *)
Definition js_get (v : JSValue) (k : string) : JSValue :=
  match v with
  | JObj fields => default JUndefined (fields !! k)
  | _ => JUndefined
  end.

(** ** [config.ts], five-field revision *)

Module Config.

Record Config : Type := {
  gameVersion : JSValue;
  fullscreen : JSValue;
  width : JSValue;
  height : JSValue;
  defaultTPS : JSValue
}.

Definition defaults (supplied : JSValue) : Config :=
  let supplied := js_or supplied (JObj ∅) in
  {| gameVersion := js_or (js_get supplied "gameVersion") (JStr "ANY");
     fullscreen := js_or (js_get supplied "fullscreen") (JBool false);
     width := js_or (js_get supplied "width") (JNum 600);
     height := js_or (js_get supplied "height") (JNum 600);
     defaultTPS := js_or (js_get supplied "defaultTPS") (JNum 20) |}.

End Config.

(** ** [config.ts], thirteen-field revision *)

Module ConfigExt.

Record Config : Type := {
  gameVersion : JSValue;
  fullscreen : JSValue;
  width : JSValue;
  height : JSValue;
  defaultTPS : JSValue;
  websocketURL : JSValue;
  pollEvery : JSValue;
  interpolate : bool;
  healthBars : bool;
  circleBots : bool;
  indicators : bool;
  inGameMode : bool;
  inHelpMode : bool
}.

Definition defaults (supplied : JSValue) : Config :=
  let supplied := js_or supplied (JObj ∅) in
  {| gameVersion := js_or (js_get supplied "gameVersion") (JStr "ANY");
     fullscreen := js_or (js_get supplied "fullscreen") (JBool false);
     width := js_or (js_get supplied "width") (JNum 600);
     height := js_or (js_get supplied "height") (JNum 600);
     defaultTPS := js_or (js_get supplied "defaultTPS") (JNum 20);
     websocketURL := js_or (js_get supplied "websocketURL") JNull;
     pollEvery := js_or (js_get supplied "pollEvery") (JNum 500);
     interpolate := true;
     healthBars := true;
     circleBots := false;
     indicators := true;
     inGameMode := true;
     inHelpMode := false |}.

(** The four switches the keyboard handler flips in place. *)
Definition set_flags (i h c d : bool) (conf : Config) : Config :=
  {| gameVersion := gameVersion conf;
     fullscreen := fullscreen conf;
     width := width conf;
     height := height conf;
     defaultTPS := defaultTPS conf;
     websocketURL := websocketURL conf;
     pollEvery := pollEvery conf;
     interpolate := i;
     healthBars := h;
     circleBots := c;
     indicators := d;
     inGameMode := inGameMode conf;
     inHelpMode := inHelpMode conf |}.

(** [conf.healthBars = !conf.healthBars] and its three siblings. *)
Definition toggleHealthBars (conf : Config) : Config :=
  set_flags (interpolate conf) (negb (healthBars conf)) (circleBots conf) (indicators conf) conf.
Definition toggleCircleBots (conf : Config) : Config :=
  set_flags (interpolate conf) (healthBars conf) (negb (circleBots conf)) (indicators conf) conf.
Definition toggleIndicators (conf : Config) : Config :=
  set_flags (interpolate conf) (healthBars conf) (circleBots conf) (negb (indicators conf)) conf.
Definition toggleInterpolate (conf : Config) : Config :=
  set_flags (negb (interpolate conf)) (healthBars conf) (circleBots conf) (indicators conf) conf.

End ConfigExt.

(** ** Numeric primitives of the loop *)

(** [x < y] on numbers. *)
Definition Qltb (x y : Q) : bool :=
  Qnum x * QDen y <? Qnum y * QDen x.

(** [x | 0], that is [ToInt32 x]: drop the fractional part (rounding toward
    zero), then wrap modulo [2^32] into the signed 32-bit range. *)
Definition toInt32 (x : Q) : Z :=
  let t := Z.quot (Qnum x) (QDen x) in
  (t + 2 ^ 31) mod 2 ^ 32 - 2 ^ 31.

(** ** External collaborators *)

(** The [Match] class of the playback engine (package [battlecode-playback]),
    through the members the client uses. *)
Class MatchOps (M : Type) : Type := {
  current_turn : M -> Z;          (* match.current.turn *)
  seekTo : M -> Z;                (* match.seekTo *)
  farthest_turn : M -> Z;         (* match['_farthest'].turn *)
  deltas_length : M -> Z;         (* match.deltas.length *)
  match_seek : Z -> M -> M;       (* match.seek(turn) *)
  match_compute : Q -> M -> M     (* match.compute(ms) *)
}.

(** The [TickCounter] class ([game/fps]), through its constructor, its
    [update] method and its [tps] property. *)
Class TickCounterOps (T : Type) : Type := {
  tc_new : Q -> Q -> T;
  tc_update : Q -> Q -> T -> T;
  tc_tps : T -> Q
}.

(** Calls made on the engine, the controls bar, the renderer and the
    window, in the order they are issued. *)
Inductive Call : Type :=
  | MatchSeek (turn : Z)
  | SetTime (time loadedTime : Z) (ups fps : Q)
  | MatchCompute (ms : Q)
  | LoadNextStep (turn deltaIndex : Z)
  | Render (turn : Z) (lerp : option Q)
  | RequestAnimationFrame.

(** ** The playback loop of [runMatch] *)

Section Playback.

Context {M T : Type} {match_ops : MatchOps M} {tick_ops : TickCounterOps T}.

(** The variables the callbacks and [loop] close over, together with the
    client's configuration, the engine's match object and the history of
    calls issued so far. *)
Record State : Type := mkState {
  goalUPS : Q;
  rewinding : bool;
  rendersPerSecond : T;
  updatesPerSecond : T;
  interpGameTime : Q;
  lastTime : option Q;
  externalSeek : bool;
  conf : ConfigExt.Config;
  the_match : M;
  calls : list Call
}.

Definition set_speed (g : Q) (r : bool) (s : State) : State :=
  mkState g r (rendersPerSecond s) (updatesPerSecond s) (interpGameTime s)
          (lastTime s) (externalSeek s) (conf s) (the_match s) (calls s).

Definition set_externalSeek (b : bool) (s : State) : State :=
  mkState (goalUPS s) (rewinding s) (rendersPerSecond s) (updatesPerSecond s)
          (interpGameTime s) (lastTime s) b (conf s) (the_match s) (calls s).

Definition set_interpGameTime (t : Q) (s : State) : State :=
  mkState (goalUPS s) (rewinding s) (rendersPerSecond s) (updatesPerSecond s)
          t (lastTime s) (externalSeek s) (conf s) (the_match s) (calls s).

Definition set_lastTime (t : option Q) (s : State) : State :=
  mkState (goalUPS s) (rewinding s) (rendersPerSecond s) (updatesPerSecond s)
          (interpGameTime s) t (externalSeek s) (conf s) (the_match s) (calls s).

Definition set_counters (r u : T) (s : State) : State :=
  mkState (goalUPS s) (rewinding s) r u (interpGameTime s) (lastTime s)
          (externalSeek s) (conf s) (the_match s) (calls s).

Definition set_conf (c : ConfigExt.Config) (s : State) : State :=
  mkState (goalUPS s) (rewinding s) (rendersPerSecond s) (updatesPerSecond s)
          (interpGameTime s) (lastTime s) (externalSeek s) c (the_match s) (calls s).

Definition set_match (m : M) (s : State) : State :=
  mkState (goalUPS s) (rewinding s) (rendersPerSecond s) (updatesPerSecond s)
          (interpGameTime s) (lastTime s) (externalSeek s) (conf s) m (calls s).

(** Record one outgoing call. *)
Definition emit (c : Call) (s : State) : State :=
  mkState (goalUPS s) (rewinding s) (rendersPerSecond s) (updatesPerSecond s)
          (interpGameTime s) (lastTime s) (externalSeek s) (conf s) (the_match s)
          (calls s ++ [c]).

(** [match.seek(turn)]. *)
Definition do_seek (turn : Z) (s : State) : State :=
  emit (MatchSeek turn) (set_match (match_seek turn (the_match s)) s).

(** [match.compute(ms)]. *)
Definition do_compute (ms : Q) (s : State) : State :=
  emit (MatchCompute ms) (set_match (match_compute ms (the_match s)) s).

(** The state [runMatch] sets up before the first frame is requested. *)
Definition runMatch (c : ConfigExt.Config) (m : M) : State :=
  emit RequestAnimationFrame
    (mkState 10%Q false (tc_new 0.5%Q 100%Q) (tc_new 0.5%Q 100%Q) 0%Q None false c m []).

(** *** The callbacks installed on the controls bar *)

Definition onTogglePause (s : State) : State :=
  set_speed (if Qeq_bool (goalUPS s) 0 then 10 else 0)%Q false s.

Definition onToggleForward (s : State) : State :=
  set_speed (if Qeq_bool (goalUPS s) 300 then 10 else 300)%Q false s.

Definition onToggleRewind (s : State) : State :=
  set_speed (if Qeq_bool (goalUPS s) (-100) then 10 else -100)%Q
            (negb (rewinding s)) s.

Definition onSeek (turn : Z) (s : State) : State :=
  set_interpGameTime (inject_Z turn) (do_seek turn (set_externalSeek true s)).

(** The [mousedown] listener of the timeline canvas.  [offsetX] is the
    event's coordinate and [maxWidth] the canvas width (a positive
    number; the timeline canvas is created 400 wide). *)
Definition timeline_mousedown (offsetX : Q) (maxWidth : positive) (s : State) : State :=
  let turn :=
    Qfloor (inject_Z (farthest_turn (the_match s)) * offsetX / inject_Z (Z.pos maxWidth)) in
  set_interpGameTime (inject_Z turn) (do_seek turn (set_externalSeek true s)).

(** *** [Controls] methods
    Each one runs its callback and then only swaps button images. *)

Definition Controls_pause (s : State) : State := onTogglePause s.
Definition Controls_forward (s : State) : State := onToggleForward s.
Definition Controls_rewind (s : State) : State := onToggleRewind s.
Definition Controls_restart (s : State) : State := onSeek 0 s.

(** *** [document.onkeydown] *)

Definition onkeydown (keyCode : Z) (s : State) : State :=
  match keyCode with
  | 80 => Controls_pause s
  | 79 => Controls_restart s
  | 37 => Controls_rewind s
  | 39 => Controls_forward s
  | 72 => set_conf (ConfigExt.toggleHealthBars (conf s)) s
  | 67 => set_conf (ConfigExt.toggleCircleBots (conf s)) s
  | 86 => set_conf (ConfigExt.toggleIndicators (conf s)) s
  | 66 => set_conf (ConfigExt.toggleInterpolate (conf s)) s
  | _ => s
  end.

(** *** The main update loop *)

(** The [if] chain at the head of [loop]; the second component is the
    local [delta]. *)
Definition advance (curTime : Q) (s : State) : State * Q :=
  match lastTime s with
  | None => (s, 0%Q)
  | Some last =>
      if externalSeek s then
        (if current_turn (the_match s) =? seekTo (the_match s)
         then set_externalSeek false s else s, 0%Q)
      else if rewinding s && (current_turn (the_match s) <=? 10) then
        (Controls_pause (Controls_rewind s), 0%Q)
      else if Qltb (Qabs (interpGameTime s - inject_Z (current_turn (the_match s)))) 10 then
        let delta := (goalUPS s * (curTime - last) / 1000)%Q in
        let s1 := set_interpGameTime (interpGameTime s + delta)%Q s in
        (do_seek (toInt32 (interpGameTime s1)) s1, delta)
      else (s, 0%Q)
  end.

(** The test guarding the interpolated [render] call. *)
Definition interpolating (s : State) : bool :=
  ConfigExt.interpolate (conf s)
  && (current_turn (the_match s) + 1 <? deltas_length (the_match s))
  && Qltb (goalUPS s) (tc_tps (rendersPerSecond s)).

(** The two [render] branches that end [loop]. *)
Definition draw (s : State) : State :=
  let turn := current_turn (the_match s) in
  if interpolating s then
    let s1 := emit (LoadNextStep turn (turn + 1)) s in
    let lerp := Qmin (interpGameTime s1 - inject_Z turn) 1 in
    emit (Render turn (Some lerp)) s1
  else
    emit (Render turn None) s.

Definition loop (curTime : Q) (s : State) : State :=
  let '(s1, delta) := advance curTime s in
  let s2 := set_counters (tc_update curTime 1 (rendersPerSecond s1))
                         (tc_update curTime delta (updatesPerSecond s1)) s1 in
  let s3 := emit (SetTime (current_turn (the_match s2)) (farthest_turn (the_match s2))
                          (tc_tps (updatesPerSecond s2)) (tc_tps (rendersPerSecond s2))) s2 in
  let s4 := do_compute 5 s3 in
  let s5 := set_lastTime (Some curTime) s4 in
  emit RequestAnimationFrame (draw s5).

End Playback.

Arguments State M T : clear implicits.

(** ** Sequences of events *)

(** What can happen between two states of a running match: one of the
    four callbacks fires, the timeline is clicked, a key goes down, or an
    animation frame is delivered with its timestamp. *)
Inductive Event : Type :=
  | EvTogglePause
  | EvToggleForward
  | EvToggleRewind
  | EvSeek (turn : Z)
  | EvMouseDown (offsetX : Q) (maxWidth : positive)
  | EvKeyDown (keyCode : Z)
  | EvFrame (curTime : Q).

Section Runs.

Context {M T : Type} {match_ops : MatchOps M} {tick_ops : TickCounterOps T}.

Definition step (e : Event) (s : State M T) : State M T :=
  match e with
  | EvTogglePause => onTogglePause s
  | EvToggleForward => onToggleForward s
  | EvToggleRewind => onToggleRewind s
  | EvSeek turn => onSeek turn s
  | EvMouseDown offsetX maxWidth => timeline_mousedown offsetX maxWidth s
  | EvKeyDown keyCode => onkeydown keyCode s
  | EvFrame curTime => loop curTime s
  end.

(** Events are handled one at a time, oldest first. *)
Definition run (es : list Event) (s : State M T) : State M T :=
  fold_left (fun acc e => step e acc) es s.

(** Consecutive animation frames with nothing in between. *)
Definition frames (ts : list Q) (s : State M T) : State M T :=
  fold_left (fun acc t => loop t acc) ts s.

(** The test of the seek branch of [loop]: a previous frame was recorded
    and the engine's current turn is its seek target. *)
Definition arrived (s : State M T) : bool :=
  match lastTime s with
  | None => false
  | Some _ => current_turn (the_match s) =? seekTo (the_match s)
  end.

(** The most recent [render] call in a history: its turn and, for an
    interpolated frame, the fraction passed along. *)
Fixpoint last_render (cs : list Call) : option (Z * option Q) :=
  match cs with
  | [] => None
  | c :: rest =>
      match last_render rest with
      | Some r => Some r
      | None => match c with Render turn lerp => Some (turn, lerp) | _ => None end
      end
  end.

(** The most recent [match.seek] argument in a history. *)
Fixpoint last_seek (cs : list Call) : option Z :=
  match cs with
  | [] => None
  | c :: rest =>
      match last_seek rest with
      | Some r => Some r
      | None => match c with MatchSeek turn => Some turn | _ => None end
      end
  end.

(** The flag agrees with the speed: [rewinding] holds exactly at the
    rewind rate. *)
Definition flag_matches_speed (s : State M T) : Prop :=
  rewinding s = true <-> (goalUPS s == -100)%Q.

End Runs.

(** ** The controls bar with its button images ([html/controls.ts]) *)

Module ControlsBar.

(** The values [style.display] takes on the button images: the empty
    string an image starts with, ["none"] and ["unset"]. *)
Inductive Display : Type :=
  | display_empty
  | display_none
  | display_unset.

(** [d == "none"]. *)
Definition is_none (d : Display) : bool :=
  match d with display_none => true | _ => false end.

(** The six images whose [style.display] the bar writes. *)
Record Images : Type := {
  playbackStart : Display;
  playbackPause : Display;
  seekForward : Display;
  skipForward : Display;
  seekBackward : Display;
  skipBackward : Display
}.

Definition set_playback (start pause : Display) (i : Images) : Images :=
  {| playbackStart := start; playbackPause := pause;
     seekForward := seekForward i; skipForward := skipForward i;
     seekBackward := seekBackward i; skipBackward := skipBackward i |}.

Definition set_forward (seek skip : Display) (i : Images) : Images :=
  {| playbackStart := playbackStart i; playbackPause := playbackPause i;
     seekForward := seek; skipForward := skip;
     seekBackward := seekBackward i; skipBackward := skipBackward i |}.

Definition set_backward (seek skip : Display) (i : Images) : Images :=
  {| playbackStart := playbackStart i; playbackPause := playbackPause i;
     seekForward := seekForward i; skipForward := skipForward i;
     seekBackward := seek; skipBackward := skip |}.

(** The constructor's [createButton] calls: each button's second image is
    hidden. *)
Definition createButtons (i : Images) : Images :=
  {| playbackStart := display_none; playbackPause := playbackPause i;
     seekForward := display_none; skipForward := skipForward i;
     seekBackward := display_none; skipBackward := skipBackward i |}.

(** The "Reset buttons" block of [loadMatch]. *)
Definition loadMatch_reset (i : Images) : Images :=
  {| playbackStart := display_none; playbackPause := display_unset;
     seekForward := display_none; skipForward := display_unset;
     seekBackward := display_none; skipBackward := display_unset |}.

Section Bar.

Context {M T : Type} {match_ops : MatchOps M} {tick_ops : TickCounterOps T}.

(** The bar's images next to the loop variables its callbacks write. *)
Record Bar : Type := mkBar {
  imgs : Images;
  watch : State M T
}.

Definition pause (b : Bar) : Bar :=
  let s := onTogglePause (watch b) in
  if is_none (playbackStart (imgs b)) then
    mkBar (set_backward display_none display_unset
             (set_forward display_none display_unset
                (set_playback display_unset display_none (imgs b)))) s
  else
    mkBar (set_playback display_none display_unset (imgs b)) s.

Definition forward (b : Bar) : Bar :=
  let s := onToggleForward (watch b) in
  let i1 := if is_none (seekForward (imgs b))
            then set_forward display_unset display_none (imgs b)
            else set_forward display_none display_unset (imgs b) in
  let i2 := set_backward display_none display_unset i1 in
  let i3 := if is_none (playbackPause i2)
            then set_playback display_none display_unset i2
            else i2 in
  mkBar i3 s.

Definition rewind (b : Bar) : Bar :=
  let s := onToggleRewind (watch b) in
  let i1 := if is_none (seekBackward (imgs b))
            then set_backward display_unset display_none (imgs b)
            else set_backward display_none display_unset (imgs b) in
  let i2 := set_forward display_none display_unset i1 in
  let i3 := if is_none (playbackPause i2)
            then set_playback display_none display_unset i2
            else i2 in
  mkBar i3 s.

Definition restart (b : Bar) : Bar :=
  mkBar (imgs b) (onSeek 0 (watch b)).

(** [document.onkeydown] with the bar's methods in place of their
    callbacks. *)
Definition keydown (keyCode : Z) (b : Bar) : Bar :=
  match keyCode with
  | 80 => pause b
  | 79 => restart b
  | 37 => rewind b
  | 39 => forward b
  | _ => mkBar (imgs b) (onkeydown keyCode (watch b))
  end.

(** The test of the one branch of [loop] that calls the bar. *)
Definition rewind_stops (s : State M T) : bool :=
  match lastTime s with
  | None => false
  | Some _ =>
      negb (externalSeek s) && (rewinding s && (current_turn (the_match s) <=? 10))
  end.

(** One frame: the loop variables go through [loop]; the images change
    only in the rewind-stop branch, by [rewind] followed by [pause]. *)
Definition frame (curTime : Q) (b : Bar) : Bar :=
  mkBar (if rewind_stops (watch b) then imgs (pause (rewind b)) else imgs b)
        (loop curTime (watch b)).

(** What the user and the browser can do to a running match. *)
Inductive BarEvent : Type :=
  | ClickPause
  | ClickForward
  | ClickRewind
  | ClickStop
  | KeyDown (keyCode : Z)
  | MouseDown (offsetX : Q) (maxWidth : positive)
  | Frame (curTime : Q).

Definition bar_step (e : BarEvent) (b : Bar) : Bar :=
  match e with
  | ClickPause => pause b
  | ClickForward => forward b
  | ClickRewind => rewind b
  | ClickStop => restart b
  | KeyDown keyCode => keydown keyCode b
  | MouseDown offsetX maxWidth =>
      mkBar (imgs b) (timeline_mousedown offsetX maxWidth (watch b))
  | Frame curTime => frame curTime b
  end.

Definition bar_run (es : list BarEvent) (b : Bar) : Bar :=
  fold_left (fun acc e => bar_step e acc) es b.

(** The images agree with the loop variables: the play image shows
    exactly at speed 0, the fast-forward image exactly at speed 300, the
    rewind image exactly while rewinding, each button shows one of its two
    images, and the flag agrees with the speed. *)
Definition in_step (b : Bar) : Prop :=
  is_none (playbackStart (imgs b)) = negb (Qeq_bool (goalUPS (watch b)) 0)
  /\ is_none (playbackPause (imgs b)) = Qeq_bool (goalUPS (watch b)) 0
  /\ is_none (seekForward (imgs b)) = negb (Qeq_bool (goalUPS (watch b)) 300)
  /\ is_none (skipForward (imgs b)) = Qeq_bool (goalUPS (watch b)) 300
  /\ is_none (seekBackward (imgs b)) = negb (rewinding (watch b))
  /\ is_none (skipBackward (imgs b)) = rewinding (watch b)
  /\ rewinding (watch b) = Qeq_bool (goalUPS (watch b)) (-100).

End Bar.

Arguments Bar M T : clear implicits.

(** [drawProgress]: the width handed to [fillRect]. *)
Definition drawProgress_width (canvasWidth frame maxFrame : Q) : Q :=
  canvasWidth * frame / maxFrame.

End ControlsBar.

(** ** The map editor form ([mapeditor/form]) *)

(** [schema.BodyType], an enumeration of the playback package. *)
Inductive BodyType : Type :=
  | ARCHON | GARDENER | LUMBERJACK | RECRUIT | SOLDIER | TANK | SCOUT
  | TREE_BULLET | TREE_NEUTRAL.

Definition BodyType_eqb (a b : BodyType) : bool :=
  match a, b with
  | ARCHON, ARCHON | GARDENER, GARDENER | LUMBERJACK, LUMBERJACK
  | RECRUIT, RECRUIT | SOLDIER, SOLDIER | TANK, TANK | SCOUT, SCOUT
  | TREE_BULLET, TREE_BULLET | TREE_NEUTRAL, TREE_NEUTRAL => true
  | _, _ => false
  end.

Module MapEditor.

(** *** Numbers that may be [NaN]
    The form reads its fields with [parseFloat], which yields [NaN] on text
    that does not start with a number, and the code tests for it.  [None]
    stands for [NaN]. *)
Definition num : Type := option Q.

Definition isNaN (a : num) : bool :=
  match a with None => true | Some _ => false end.

Definition lift2 (f : Q -> Q -> Q) (a b : num) : num :=
  match a, b with
  | Some p, Some q => Some (f p q)
  | _, _ => None
  end.

Definition test2 (f : Q -> Q -> bool) (a b : num) : bool :=
  match a, b with
  | Some p, Some q => f p q
  | _, _ => false
  end.

Definition nsub : num -> num -> num := lift2 Qminus.
Definition nadd : num -> num -> num := lift2 Qplus.
Definition Math_min : num -> num -> num := lift2 Qmin.       (* Math.min *)
Definition Math_max : num -> num -> num := lift2 Qmax.       (* Math.max *)
Definition Math_abs (a : num) : num := option_map Qabs a.    (* Math.abs *)
Definition half (a : num) : num := option_map (fun q => q / 2)%Q a.
Definition nlt : num -> num -> bool := test2 Qltb.                      (* a < b *)
Definition ngt (a b : num) : bool := nlt b a.                            (* a > b *)
Definition nle : num -> num -> bool := test2 Qle_bool.                  (* a <= b *)
Definition nge (a b : num) : bool := nle b a.                            (* a >= b *)
Definition strict_eq : num -> num -> bool := test2 Qeq_bool.                  (* a === b *)

(** *** Units and the maps that hold them *)

Inductive Symmetry : Type := ROTATIONAL | HORIZONTAL | VERTICAL.

Record Victor : Type := { x : num; y : num }.

Record MapUnit : Type := {
  loc : Victor;
  radius : num;
  type : BodyType;
  containedBullets : num;
  containedBody : BodyType;
  teamID : option Z
}.

(** A [Map<number, MapUnit>]: entries in insertion order, one per key. *)
Definition UnitMap : Type := list (Z * MapUnit).

Fixpoint map_get (id : Z) (m : UnitMap) : option MapUnit :=
  match m with
  | [] => None
  | (k, u) :: rest => if k =? id then Some u else map_get id rest
  end.

Definition map_has (id : Z) (m : UnitMap) : bool :=
  match map_get id m with Some _ => true | None => false end.

(** The keys of a map, in insertion order. *)
Definition keys (m : UnitMap) : list Z := map fst m.

(** [m.set(id, u)]: an existing key keeps its place. *)
Fixpoint map_set (id : Z) (u : MapUnit) (m : UnitMap) : UnitMap :=
  match m with
  | [] => [(id, u)]
  | (k, v) :: rest =>
      if k =? id then (k, u) :: rest else (k, v) :: map_set id u rest
  end.

Fixpoint map_delete (id : Z) (m : UnitMap) : UnitMap :=
  match m with
  | [] => []
  | (k, v) :: rest =>
      if k =? id then rest else (k, v) :: map_delete id rest
  end.

(** *** The form *)

(** A text field is kept as the number [parseFloat] reads from it; a label
    that holds an id or nothing as an optional id. *)
Record Form : Type := mkForm {
  widthGM : num;
  heightGM : num;
  symmetryGM : Symmetry;
  tree_checked : bool;
  idA : option Z;
  xA : num;
  yA : num;
  radiusA : num;
  idT : option Z;
  xT : num;
  yT : num;
  radiusT : num;
  bulletsT : num;
  bodiesT : option BodyType;
  lastID : Z;
  originalBodies : UnitMap;
  symmetricBodies : UnitMap
}.

Definition set_dims (w h : num) (s : Symmetry) (f : Form) : Form :=
  mkForm w h s (tree_checked f) (idA f) (xA f) (yA f) (radiusA f)
         (idT f) (xT f) (yT f) (radiusT f) (bulletsT f) (bodiesT f)
         (lastID f) (originalBodies f) (symmetricBodies f).

Definition set_checked (t : bool) (f : Form) : Form :=
  mkForm (widthGM f) (heightGM f) (symmetryGM f) t (idA f) (xA f) (yA f) (radiusA f)
         (idT f) (xT f) (yT f) (radiusT f) (bulletsT f) (bodiesT f)
         (lastID f) (originalBodies f) (symmetricBodies f).

Definition set_archon (i : option Z) (ax ay ar : num) (f : Form) : Form :=
  mkForm (widthGM f) (heightGM f) (symmetryGM f) (tree_checked f) i ax ay ar
         (idT f) (xT f) (yT f) (radiusT f) (bulletsT f) (bodiesT f)
         (lastID f) (originalBodies f) (symmetricBodies f).

Definition set_tree (i : option Z) (tx ty tr tb : num) (body : option BodyType)
    (f : Form) : Form :=
  mkForm (widthGM f) (heightGM f) (symmetryGM f) (tree_checked f)
         (idA f) (xA f) (yA f) (radiusA f) i tx ty tr tb body
         (lastID f) (originalBodies f) (symmetricBodies f).

Definition set_store (n : Z) (orig sym : UnitMap) (f : Form) : Form :=
  mkForm (widthGM f) (heightGM f) (symmetryGM f) (tree_checked f)
         (idA f) (xA f) (yA f) (radiusA f)
         (idT f) (xT f) (yT f) (radiusT f) (bulletsT f) (bodiesT f)
         n orig sym.

Definition width (f : Form) : num := widthGM f.
Definition height (f : Form) : num := heightGM f.
Definition symmetry (f : Form) : Symmetry := symmetryGM f.

(** The options of the tree body selector. *)
Definition body_options : list BodyType :=
  [ARCHON; GARDENER; LUMBERJACK; SOLDIER; TANK; SCOUT].

(** [bodiesT.value = String(body)]: a value that is no option leaves
    nothing selected. *)
Definition select_body (body : BodyType) : option BodyType :=
  if existsb (BodyType_eqb body) body_options then Some body else None.

(** What the user can do to the form.  A text field is first typed into
    and later fires its [onchange] handler. *)
Inductive Field : Type :=
  | FWidth | FHeight | FXT | FYT | FRadiusT | FBulletsT | FXA | FYA.

Inductive Event : Type :=
  | Type_ (fld : Field) (v : num)
  | Change (fld : Field)
  | SelectSymmetry (s : Symmetry)
  | SelectBody (index : nat)
  | CheckTree
  | CheckArchon
  | ClickAdd
  | ClickDelete
  | ClickUnit (id : Z)
  | ClickBlank (p : Victor)
  | KeyDown (keyCode : Z)
  | ReadBodies.

(** *** Symmetry *)

Section Constants.

(** The constants of [constants.ts] the form uses, and the two members of
    the [victor] package it calls: the constructor [new Victor(x, y)] and
    the [distance] method. *)
Variables MIN_DIMENSION MAX_DIMENSION DELTA ARCHON_RADIUS : Q.
Variables MIN_NUMBER_OF_ARCHONS MAX_NUMBER_OF_ARCHONS : Z.
Variable new_Victor : num -> num -> Victor.
Variable distance : Victor -> Victor -> num.

Definition onSymmetricLine (f : Form) (p : Victor) : bool :=
  match symmetry f with
  | ROTATIONAL => strict_eq (x p) (half (width f)) && strict_eq (y p) (half (height f))
  | HORIZONTAL => strict_eq (y p) (half (height f))
  | VERTICAL => strict_eq (x p) (half (width f))
  end.

Definition reflect (a mid : num) : num :=
  if ngt a mid then nsub mid (Math_abs (nsub a mid)) else nadd mid (Math_abs (nsub a mid)).

Definition transformLoc (f : Form) (p : Victor) : Victor :=
  let midX := half (width f) in
  let midY := half (height f) in
  match symmetry f with
  | ROTATIONAL => new_Victor (reflect (x p) midX) (reflect (y p) midY)
  | HORIZONTAL => new_Victor (x p) (reflect (y p) midY)
  | VERTICAL => new_Victor (reflect (x p) midX) (y p)
  end.

(** The unit [getSymmetricBodies] stores for an original one. *)
Definition mirror (f : Form) (u : MapUnit) : MapUnit :=
  {| loc := transformLoc f (loc u);
     radius := radius u;
     type := type u;
     containedBullets := containedBullets u;
     containedBody := containedBody u;
     teamID := None |}.

Definition getSymmetricBodies (f : Form) : UnitMap :=
  fold_left
    (fun acc '(id, body) =>
       if negb (onSymmetricLine f (loc body))
       then map_set id (mirror f body) acc
       else acc)
    (originalBodies f) [].

(** The symmetric units listed directly: one mirror per original unit
    off the line of symmetry, in the order of the originals. *)
Definition mirrors (f : Form) (m : UnitMap) : UnitMap :=
  flat_map (fun '(id, body) =>
              if onSymmetricLine f (loc body) then [] else [(id, mirror f body)]) m.

(** [render]: the symmetric units are recomputed (and the canvas is
    redrawn). *)
Definition render (f : Form) : Form :=
  set_store (lastID f) (originalBodies f) (getSymmetricBodies f) f.

Definition setCanvasDimensions (f : Form) : Form := render f.

Definition setUnit (id : Z) (body : MapUnit) (f : Form) : Form :=
  let n := if negb (map_has id (originalBodies f)) then lastID f + 1 else lastID f in
  render (set_store n (map_set id body (originalBodies f)) (symmetricBodies f) f).

Definition deleteUnit (id : Z) (f : Form) : Form :=
  if map_has id (originalBodies f)
  then render (set_store (lastID f) (map_delete id (originalBodies f))
                         (symmetricBodies f) f)
  else f.

(** The running minimum of [getMaxRadius] over one map. *)
Definition min_clearance (p : Victor) (ignoreID : Z) (m : UnitMap) (start : num) : num :=
  fold_left
    (fun acc '(id, body) =>
       if negb (id =? ignoreID)
       then Math_min acc (nsub (distance p (loc body)) (radius body))
       else acc)
    m start.

Definition getMaxRadius (f : Form) (px py : num) (ignoreID : option Z)
    (archon : bool) : num :=
  let maxRadius := Math_min (Math_min (Math_min px py) (nsub (width f) px)) (nsub (height f) py) in
  let p := new_Victor px py in
  let ignoreID := match ignoreID with
                  | Some i => if i =? 0 then -1 else i
                  | None => -1
                  end in
  let maxRadius := min_clearance p ignoreID (originalBodies f) maxRadius in
  let maxRadius := min_clearance p ignoreID (symmetricBodies f) maxRadius in
  let maxRadius := Math_max (Some 0%Q) (nsub maxRadius (Some DELTA)) in
  if archon then
    if onSymmetricLine f (new_Victor px py) then Some 0%Q
    else if nge maxRadius (Some 2%Q) then Some 2%Q else Some 0%Q
  else maxRadius.

(** The id [getMaxRadius] ends up ignoring: [ignoreID || -1]. *)
Definition ignored (ignoreID : option Z) : Z :=
  match ignoreID with
  | Some i => if i =? 0 then -1 else i
  | None => -1
  end.

(** The distances a unit centred on [(px, py)] has to keep: to the four
    walls, and to the rim of every original and symmetric unit other than
    the ignored one. *)
Definition clearances (f : Form) (px py : num) (ignoreID : Z) : list num :=
  [px; py; nsub (width f) px; nsub (height f) py]
  ++ map (fun '(_, body) =>
            nsub (distance (new_Victor px py) (loc body)) (radius body))
         (List.filter (fun '(id, _) => negb (id =? ignoreID))
                      (originalBodies f ++ symmetricBodies f)).

Definition setArchonForm (p : Victor) (id : option Z) (f : Form) : Form :=
  match id with
  | None => set_archon None (x p) (y p) (getMaxRadius f (x p) (y p) None true) f
  | Some i => set_archon (Some i) (x p) (y p) (Some ARCHON_RADIUS) f
  end.

Definition setTreeForm (p : Victor) (r : num) (bullets : option num)
    (body : option BodyType) (id : option Z) (f : Form) : Form :=
  set_tree id (x p) (y p) r
           (match bullets with Some b => b | None => bulletsT f end)
           (match body with Some b => select_body b | None => bodiesT f end)
           f.

(** *** Callbacks of the renderer *)

Definition onclickUnit (id : Z) (f : Form) : Form :=
  match map_get id (originalBodies f) with
  | Some body =>
      if BodyType_eqb (type body) ARCHON then
        setArchonForm (loc body) (Some id) (set_checked false f)
      else if BodyType_eqb (type body) TREE_NEUTRAL then
        setTreeForm (loc body) (radius body) (Some (containedBullets body))
                    (Some (containedBody body)) (Some id) (set_checked true f)
      else f
  | None => f
  end.

Definition onclickBlank (p : Victor) (f : Form) : Form :=
  if negb (tree_checked f) then setArchonForm p None f
  else
    let r := getMaxRadius f (x p) (y p) None false in
    let r := if negb (isNaN (radiusT f)) then Math_min (radiusT f) r else r in
    setTreeForm p r None None None f.

(** *** [onchange] handlers *)

Definition widthGM_onchange (f : Form) : Form :=
  let value := Math_min (Math_max (widthGM f) (Some MIN_DIMENSION)) (Some MAX_DIMENSION) in
  setCanvasDimensions
    (set_dims (if isNaN value then Some 50%Q else value) (heightGM f) (symmetryGM f) f).

Definition heightGM_onchange (f : Form) : Form :=
  let value := Math_min (Math_max (heightGM f) (Some MIN_DIMENSION)) (Some MAX_DIMENSION) in
  setCanvasDimensions
    (set_dims (widthGM f) (if isNaN value then Some 50%Q else value) (symmetryGM f) f).

Definition symmetryGM_onchange (f : Form) : Form := render f.

Definition xT_onchange (f : Form) : Form :=
  let value := Math_min (Math_max (xT f) (Some 0%Q)) (width f) in
  set_tree (idT f) value (yT f) (radiusT f) (bulletsT f) (bodiesT f) f.

Definition xA_onchange (f : Form) : Form :=
  let value := Math_min (Math_max (xA f) (Some 0%Q)) (width f) in
  set_tree (idT f) value (yT f) (radiusT f) (bulletsT f) (bodiesT f) f.

Definition yT_onchange (f : Form) : Form :=
  let value := Math_min (Math_max (yT f) (Some 0%Q)) (height f) in
  set_tree (idT f) (xT f) value (radiusT f) (bulletsT f) (bodiesT f) f.

Definition yA_onchange (f : Form) : Form :=
  let value := Math_min (Math_max (yA f) (Some 0%Q)) (height f) in
  set_tree (idT f) (xT f) value (radiusT f) (bulletsT f) (bodiesT f) f.

Definition radiusT_onchange (f : Form) : Form :=
  let value := Math_max (radiusT f) (Some 0%Q) in
  let value := Math_min value (getMaxRadius f (xT f) (yT f) None false) in
  set_tree (idT f) (xT f) (yT f) value (bulletsT f) (bodiesT f) f.

Definition radiusA_onchange (f : Form) : Form :=
  let id := match idT f with Some i => i | None => -1 end in
  let value := if isNaN (radiusT f) then None
               else getMaxRadius f (xT f) (yT f) (Some id) true in
  set_tree (idT f) (xT f) (yT f) value (bulletsT f) (bodiesT f) f.

Definition bulletsT_onchange (f : Form) : Form :=
  let value := Math_max (yA f) (Some 0%Q) in
  set_tree (idT f) (xT f) value (radiusT f) (bulletsT f) (bodiesT f) f.

(** *** The two buttons *)

Definition addbutton_onclick (f : Form) : Form :=
  let read :=
    if tree_checked f then
      match bodiesT f with
      | Some body =>
          Some (idT f, xT f, yT f, radiusT f, bulletsT f, body, TREE_NEUTRAL)
      | None => None
      end
    else Some (idA f, xA f, yA f, radiusA f, Some 0%Q, ARCHON, ARCHON) in
  match read with
  | None => f
  | Some (id, ux, uy, r, bullets, body, ty) =>
      if isNaN ux || isNaN uy || isNaN r || strict_eq r (Some 0%Q) then f
      else
        let unit := {| loc := new_Victor ux uy; radius := r; type := ty;
                       containedBullets := bullets; containedBody := body;
                       teamID := None |} in
        match id with
        | None =>
            let f1 := setUnit (lastID f) unit f in
            if BodyType_eqb ty ARCHON
            then set_archon (idA f1) None None (radiusA f1) f1
            else set_tree (idT f1) None None (radiusT f1) (bulletsT f1) (bodiesT f1) f1
        | Some i => setUnit i unit f
        end
  end.

Definition deletebutton_onclick (f : Form) : Form :=
  match (if tree_checked f then idT f else idA f) with
  | Some id => deleteUnit id f
  | None => f
  end.

(** The form's [document.onkeydown]: ["s"] clicks Add/Update, ["d"]
    clicks Delete. *)
Definition onkeydown (keyCode : Z) (f : Form) : Form :=
  match keyCode with
  | 83 => addbutton_onclick f
  | 68 => deletebutton_onclick f
  | _ => f
  end.

(** *** Reading the map back *)

Definition set_team (t : Z) (u : MapUnit) : MapUnit :=
  {| loc := loc u; radius := radius u; type := type u;
     containedBullets := containedBullets u; containedBody := containedBody u;
     teamID := if BodyType_eqb (type u) ARCHON then Some t else teamID u |}.

(** [bodies]: the archons are tagged with their team in place, and every
    unit is entered under twice its id (originals) or twice its id plus
    one (symmetric units). *)
Definition bodies (f : Form) : Form * UnitMap :=
  let orig := map (fun '(id, u) => (id, set_team 1 u)) (originalBodies f) in
  let sym := map (fun '(id, u) => (id, set_team 2 u)) (symmetricBodies f) in
  let m := fold_left (fun acc '(id, u) => map_set (id * 2) u acc) orig [] in
  let m := fold_left (fun acc '(id, u) => map_set (id * 2 + 1) u acc) sym m in
  (set_store (lastID f) orig sym f, m).

(** The messages [isValid] collects. *)
Inductive MapError : Type :=
  | WidthOutOfRange
  | HeightOutOfRange
  | ArchonCount
  | OffMap (id : Z)
  | Overlapping (idA idB : Z).

Definition dimension_bad (d : num) : bool :=
  isNaN d || nlt d (Some MIN_DIMENSION) || ngt d (Some MAX_DIMENSION).

Definition archonCount (m : UnitMap) : Z :=
  fold_left (fun n '(_, u) => n + (if BodyType_eqb (type u) ARCHON then 1 else 0)) m 0.

Definition off_map (f : Form) (u : MapUnit) : bool :=
  let ux := x (loc u) in
  let uy := y (loc u) in
  let distanceToWall :=
    Math_min (Math_min (Math_min ux uy) (nsub (width f) ux)) (nsub (height f) uy) in
  ngt (radius u) distanceToWall || nlt ux (Some 0%Q) || nlt uy (Some 0%Q)
  || ngt ux (width f) || ngt uy (height f).

Definition overlapping (a b : MapUnit) : bool :=
  nle (distance (loc a) (loc b)) (nadd (radius a) (radius b)).

Definition validation_errors (f : Form) : list MapError :=
  let errors :=
    if dimension_bad (width f) then [WidthOutOfRange]
    else if dimension_bad (height f) then [HeightOutOfRange]
    else [] in
  let errors :=
    if (archonCount (originalBodies f) <? MIN_NUMBER_OF_ARCHONS)
       || (MAX_NUMBER_OF_ARCHONS <? archonCount (originalBodies f))
    then errors ++ [ArchonCount] else errors in
  let errors :=
    fold_left
      (fun acc '(id, u) => if off_map f u then acc ++ [OffMap id] else acc)
      (originalBodies f) errors in
  fold_left
    (fun acc '(ia, ua) =>
       fold_left
         (fun acc' '(ib, ub) =>
            if overlapping ua ub then acc' ++ [Overlapping ia ib] else acc')
         (symmetricBodies f) acc)
    (originalBodies f) errors.

(** [isValid]: the map is valid when no message was collected (otherwise
    the messages are shown in an alert). *)
Definition isValid (f : Form) : bool :=
  match validation_errors f with [] => true | _ => false end.

(** *** Events *)

Definition type_into (fld : Field) (v : num) (f : Form) : Form :=
  match fld with
  | FWidth => set_dims v (heightGM f) (symmetryGM f) f
  | FHeight => set_dims (widthGM f) v (symmetryGM f) f
  | FXT => set_tree (idT f) v (yT f) (radiusT f) (bulletsT f) (bodiesT f) f
  | FYT => set_tree (idT f) (xT f) v (radiusT f) (bulletsT f) (bodiesT f) f
  | FRadiusT => set_tree (idT f) (xT f) (yT f) v (bulletsT f) (bodiesT f) f
  | FBulletsT => set_tree (idT f) (xT f) (yT f) (radiusT f) v (bodiesT f) f
  | FXA => set_archon (idA f) v (yA f) (radiusA f) f
  | FYA => set_archon (idA f) (xA f) v (radiusA f) f
  end.

Definition onchange (fld : Field) (f : Form) : Form :=
  match fld with
  | FWidth => widthGM_onchange f
  | FHeight => heightGM_onchange f
  | FXT => xT_onchange f
  | FYT => yT_onchange f
  | FRadiusT => radiusT_onchange f
  | FBulletsT => bulletsT_onchange f
  | FXA => xA_onchange f
  | FYA => yA_onchange f
  end.

Definition step (e : Event) (f : Form) : Form :=
  match e with
  | Type_ fld v => type_into fld v f
  | Change fld => onchange fld f
  | SelectSymmetry s =>
      symmetryGM_onchange (set_dims (widthGM f) (heightGM f) s f)
  | SelectBody index =>
      match nth_error body_options index with
      | Some b => set_tree (idT f) (xT f) (yT f) (radiusT f) (bulletsT f) (Some b) f
      | None => f
      end
  | CheckTree => set_checked true f
  | CheckArchon => set_checked false f
  | ClickAdd => addbutton_onclick f
  | ClickDelete => deletebutton_onclick f
  | ClickUnit id => onclickUnit id f
  | ClickBlank p => onclickBlank p f
  | KeyDown keyCode => onkeydown keyCode f
  | ReadBodies => fst (bodies f)
  end.

Definition run (es : list Event) (f : Form) : Form :=
  fold_left (fun acc e => step e acc) es f.

End Constants.

(** The form as its constructor leaves it: both dimension fields read 50,
    the first symmetry is selected, the tree form is shown with 0 bullets
    and the first body selected, the archon radius reads 2, no unit exists
    and the next id is 1. *)
Definition initial : Form :=
  mkForm (Some 50%Q) (Some 50%Q) ROTATIONAL true
         None None None (Some 2%Q)
         None None None None (Some 0%Q) (Some ARCHON)
         1 [] [].

(** A stored unit as the Add/Update button makes it: numeric coordinates,
    a numeric radius other than 0, and either an archon (with body
    [ARCHON] and 0 bullets) or a neutral tree whose body is one of the
    selector's options. *)
Definition well_formed (u : MapUnit) : Prop :=
  (exists a b, loc u = {| x := Some a; y := Some b |})
  /\ (exists r, radius u = Some r /\ ~ (r == 0)%Q)
  /\ ((type u = ARCHON /\ containedBody u = ARCHON
       /\ containedBullets u = Some 0%Q)
      \/ (type u = TREE_NEUTRAL /\ In (containedBody u) body_options)).

(** An id label is empty or holds an id handed out earlier. *)
Definition label_ok (n : Z) (l : option Z) : Prop :=
  forall i, l = Some i -> 1 <= i < n.

(** What the form keeps true of its original units and labels. *)
Definition orig_ok (f : Form) : Prop :=
  List.NoDup (keys (originalBodies f))
  /\ 1 <= lastID f
  /\ (forall k, In k (keys (originalBodies f)) -> 1 <= k < lastID f)
  /\ label_ok (lastID f) (idT f)
  /\ label_ok (lastID f) (idA f)
  /\ (forall b, bodiesT f = Some b -> In b body_options)
  /\ (forall k u, In (k, u) (originalBodies f) -> well_formed u).

(** [orig_ok] together with what it keeps true of the symmetric units. *)
Definition store_ok (f : Form) : Prop :=
  orig_ok f
  /\ List.NoDup (keys (symmetricBodies f))
  /\ incl (keys (symmetricBodies f)) (keys (originalBodies f)).

(** The constructor of [victor] as released: a falsy coordinate (0 or
    [NaN]) is stored as 0. *)
Definition victor_js (a b : num) : Victor :=
  {| x := match a with Some q => Some q | None => Some 0%Q end;
     y := match b with Some q => Some q | None => Some 0%Q end |}.

(** The taxicab distance, used where a concrete distance is needed. *)
Definition taxicab (p q : Victor) : num :=
  nadd (Math_abs (nsub (x p) (x q))) (Math_abs (nsub (y p) (y q))).

(** A run of the form from its constructor's state, with dimensions from
    30 to 100, a [DELTA] of one ten-thousandth and archons of radius 2. *)
Definition sample_run (es : list Event) : Form :=
  run 30 100 0.0001 2 victor_js taxicab es initial.

(** A click on the empty map at (10, 20) followed by Add/Update: one tree,
    stored under id 1. *)
Definition one_tree : Form :=
  sample_run [ClickBlank {| x := Some 10%Q; y := Some 20%Q |}; ClickAdd].

(** The tree of [one_tree] after it was clicked: its id is in the label. *)
Definition tree_selected : Form :=
  sample_run [ClickBlank {| x := Some 10%Q; y := Some 20%Q |}; ClickAdd; ClickUnit 1].

(** The tree form filled in by hand: X 10, Y 20, radius 3. *)
Definition tree_typed : Form :=
  sample_run [Type_ FXT (Some 10%Q); Type_ FYT (Some 20%Q); Type_ FRadiusT (Some 3%Q)].

End MapEditor.

(** ** The stats bar ([stats.ts]) *)

#[global] Instance BodyType_eq_dec : EqDecision BodyType.
Proof. solve_decision. Defined.

Definition BodyType_to_nat (b : BodyType) : nat :=
  match b with
  | ARCHON => 0 | GARDENER => 1 | LUMBERJACK => 2 | RECRUIT => 3 | SOLDIER => 4
  | TANK => 5 | SCOUT => 6 | TREE_BULLET => 7 | TREE_NEUTRAL => 8
  end%nat.

Definition BodyType_of_nat (n : nat) : BodyType :=
  match n with
  | 0 => ARCHON | 1 => GARDENER | 2 => LUMBERJACK | 3 => RECRUIT | 4 => SOLDIER
  | 5 => TANK | 6 => SCOUT | 7 => TREE_BULLET | _ => TREE_NEUTRAL
  end%nat.

#[global] Instance BodyType_countable : Countable BodyType :=
  inj_countable' BodyType_to_nat BodyType_of_nat
    (fun b => match b with
              | ARCHON | GARDENER | LUMBERJACK | RECRUIT | SOLDIER | TANK | SCOUT
              | TREE_BULLET | TREE_NEUTRAL => eq_refl
              end).

Module Stats.

(** What a call can throw. *)
Inductive Exn : Type :=
  | Error (message : string)
  | TypeError.

Definition stats : list string := ["Bullets"; "Victory Points"].

Definition robots : list BodyType :=
  [ARCHON; GARDENER; LUMBERJACK; RECRUIT; SOLDIER; TANK; SCOUT].

Definition bodyTypeToString (bodyType : BodyType) : Exn + string :=
  match bodyType with
  | ARCHON => inr "archon"
  | GARDENER => inr "gardener"
  | LUMBERJACK => inr "lumberjack"
  | RECRUIT => inr "recruit"
  | SOLDIER => inr "soldier"
  | TANK => inr "tank"
  | SCOUT => inr "scout"
  | _ => inl (Error "invalid body type")
  end.

(** The two tables of count cells, by team id and then by robot type or
    stat name.  A cell is kept as the number it displays. *)
Record Stats : Type := mkStats {
  robotTds : gmap Z (gmap BodyType Q);
  statTds : gmap Z (gmap string Q)
}.

(** The cells a team starts with: a 0 for each robot type, a 0 for each
    stat. *)
Definition initialRobotCount : gmap BodyType Q :=
  fold_left (fun acc robot => <[robot := 0%Q]> acc) robots ∅.

Definition initialStats : gmap string Q :=
  fold_left (fun acc stat => <[stat := 0%Q]> acc) stats ∅.

Section Images.

(** Whether [images.robot[robotName][inGameID]] is an image. *)
Variable has_image : string -> Z -> bool.

(** [robotTable]: the first row takes one image per robot type, and
    appending a missing one is a [TypeError]. *)
Definition robotTable (inGameID : Z) : Exn + unit :=
  fold_left
    (fun acc robot =>
       match acc with
       | inl e => inl e
       | inr _ =>
           match bodyTypeToString robot with
           | inl e => inl e
           | inr robotName =>
               if has_image robotName inGameID then inr tt else inl TypeError
           end
       end)
    robots (inr tt).

(** Whether every robot type has an image for the in-game id. *)
Definition images_complete (inGameID : Z) : bool :=
  forallb
    (fun robot =>
       match bodyTypeToString robot with
       | inl _ => false
       | inr robotName => has_image robotName inGameID
       end)
    robots.

(** The loop of the constructor, from team [index] on. *)
Fixpoint add_teams (index : Z) (teamIDs : list Z) (s : Stats) : Exn + Stats :=
  match teamIDs with
  | [] => inr s
  | teamID :: rest =>
      let inGameID := index + 1 in
      let s1 := mkStats (<[teamID := initialRobotCount]> (robotTds s))
                        (<[teamID := initialStats]> (statTds s)) in
      match robotTable inGameID with
      | inl e => inl e
      | inr _ => add_teams (index + 1) rest s1
      end
  end.

Definition constructor (teamNames : list string) (teamIDs : list Z) : Exn + Stats :=
  if negb (length teamNames =? length teamIDs)%nat then
    inl (Error "different number of team names and team IDs")
  else add_teams 0 teamIDs (mkStats ∅ ∅).

End Images.

Definition setRobotCount (teamID : Z) (robotType : BodyType) (count : Q) (s : Stats) :
    Exn + Stats :=
  match robotTds s !! teamID with
  | None => inl TypeError
  | Some row =>
      match row !! robotType with
      | None => inl TypeError
      | Some _ =>
          inr (mkStats (<[teamID := <[robotType := count]> row]> (robotTds s))
                       (statTds s))
      end
  end.

(** The number a robot cell displays, if the cell exists. *)
Definition robot_cell (teamID : Z) (robotType : BodyType) (s : Stats) : option Q :=
  match robotTds s !! teamID with
  | None => None
  | Some row => row !! robotType
  end.

End Stats.

(** [clamp x lo hi], the usual saturation of [x] into [[lo, hi]]. *)
Definition clamp (x lo hi : Q) : Q := Qmax lo (Qmin x hi).

(** ** Concrete collaborators for running the loop *)

(** An engine that keeps a current turn and a seek target.  [seek] records
    the target when it lies in the loaded range and ignores it otherwise;
    [compute] moves the current turn toward the target by at most [pace]
    turns per call. *)
Record SimMatch : Type := {
  sim_turn : Z;
  sim_seekTo : Z;
  sim_farthest : Z;
  sim_deltas : Z;
  sim_pace : Z
}.

Definition sim_seek (turn : Z) (m : SimMatch) : SimMatch :=
  if (0 <=? turn) && (turn <=? sim_farthest m) then
    {| sim_turn := sim_turn m; sim_seekTo := turn; sim_farthest := sim_farthest m;
       sim_deltas := sim_deltas m; sim_pace := sim_pace m |}
  else m.

Definition sim_compute (ms : Q) (m : SimMatch) : SimMatch :=
  let gap := sim_seekTo m - sim_turn m in
  let move := Z.max (- sim_pace m) (Z.min (sim_pace m) gap) in
  {| sim_turn := sim_turn m + move; sim_seekTo := sim_seekTo m;
     sim_farthest := sim_farthest m; sim_deltas := sim_deltas m; sim_pace := sim_pace m |}.

#[export] Instance SimMatch_ops : MatchOps SimMatch := {
  current_turn := sim_turn;
  seekTo := sim_seekTo;
  farthest_turn := sim_farthest;
  deltas_length := sim_deltas;
  match_seek := sim_seek;
  match_compute := sim_compute
}.

(** A counter whose reading has settled at sixty per second. *)
Record SteadyCounter : Type := { steady_rate : Q }.

#[export] Instance SteadyCounter_ops : TickCounterOps SteadyCounter := {
  tc_new := fun _ _ => {| steady_rate := 60 |};
  tc_update := fun _ _ c => c;
  tc_tps := steady_rate
}.

(** A fully loaded 100-turn match whose engine stands at [turn] and moves
    [pace] turns per [compute] call. *)
Definition sim_at (turn pace : Z) : SimMatch :=
  {| sim_turn := turn; sim_seekTo := turn; sim_farthest := 100;
     sim_deltas := 101; sim_pace := pace |}.

Definition sim_start (turn pace : Z) : State SimMatch SteadyCounter :=
  runMatch (ConfigExt.defaults JUndefined) (sim_at turn pace).

(** *** Scenarios *)

(** Rewind is engaged while the engine stands at turn 5, one frame after
    the match started. *)
Definition rewinding_near_start : State SimMatch SteadyCounter :=
  run [EvFrame 0; EvToggleRewind] (sim_start 5 20).

(** Fast-forward is engaged on a fresh match. *)
Definition fast_forwarding : State SimMatch SteadyCounter :=
  run [EvToggleForward] (sim_start 0 20).

(** The stop key is pressed before the first frame of a fresh match. *)
Definition restarted_before_first_frame : State SimMatch SteadyCounter :=
  run [EvKeyDown 79] (sim_start 0 20).

(** Playback was brought to turn 11 and rewind is engaged. *)
Definition rewinding_at_11 : State SimMatch SteadyCounter :=
  run [EvFrame 0; EvSeek 11; EvFrame 16; EvToggleRewind] (sim_start 11 20).

(** Playback was brought to turn 20 and rewind is engaged; the engine
    moves one turn per [compute] call. *)
Definition rewinding_slow_engine : State SimMatch SteadyCounter :=
  run [EvFrame 0; EvSeek 20; EvFrame 16; EvToggleRewind] (sim_start 20 1).

(** One frame into a fresh match. *)
Definition playing : State SimMatch SteadyCounter :=
  run [EvFrame 0] (sim_start 0 20).

(** One frame into a match whose engine stands at turn 50 while the
    simulated time restarted from 0. *)
Definition far_behind : State SimMatch SteadyCounter :=
  run [EvFrame 0] (sim_start 50 1).

(** A seek to turn 50 was requested one frame into a fresh match. *)
Definition seeking_50 : State SimMatch SteadyCounter :=
  run [EvFrame 0; EvSeek 50] (sim_start 0 20).

(** Playback was paused one frame into a fresh match. *)
Definition paused : State SimMatch SteadyCounter :=
  run [EvFrame 0; EvTogglePause] (sim_start 0 20).

(** * Properties *)

(** ** Numbers *)

Lemma Qltb_lt (x y : Q) : Qltb x y = true <-> (x < y)%Q.
Proof. unfold Qltb, Qlt. apply Z.ltb_lt. Qed.

Lemma Qltb_ge (x y : Q) : Qltb x y = false <-> (y <= x)%Q.
Proof. unfold Qltb, Qle. apply Z.ltb_ge. Qed.

Lemma Qeq_bool_false (x y : Q) : Qeq_bool x y = false <-> ~ (x == y)%Q.
Proof.
  split.
  - intros E H. apply Qeq_bool_iff in H. congruence.
  - intros H. destruct (Qeq_bool x y) eqn:E; [| reflexivity].
    apply Qeq_bool_iff in E. contradiction.
Qed.

(** On the non-negative numbers below [2^31], [x | 0] is [Math.floor x]. *)
Lemma toInt32_floor (x : Q) :
  (0 <= x)%Q -> (x < inject_Z (2 ^ 31))%Q -> toInt32 x = Qfloor x.
Proof.
  intros Hlo Hhi. unfold toInt32, Qfloor. destruct x as [n d]. cbn [Qnum Qden].
  assert (Hn : 0 <= n).
  { unfold Qle in Hlo. cbn in Hlo. lia. }
  assert (Hq : n / Z.pos d < 2 ^ 31).
  { apply Z.div_lt_upper_bound; [lia |].
    unfold Qlt in Hhi. cbn [Qnum Qden inject_Z] in Hhi. lia. }
  rewrite Z.quot_div_nonneg by lia.
  assert (0 <= n / Z.pos d) by (apply Z.div_pos; lia).
  rewrite Z.mod_small by lia. lia.
Qed.

(** ** Configuration defaults *)

Lemma js_or_falsy (a b : JSValue) : truthy a = false -> js_or a b = b.
Proof. intros E. unfold js_or. now rewrite E. Qed.

Lemma js_get_coalesced (supplied : JSValue) (k : string) :
  js_get (js_or supplied (JObj ∅)) k = js_get supplied k.
Proof.
  unfold js_or. destruct (truthy supplied) eqn:E; [reflexivity |].
  destruct supplied; try discriminate E; cbn; now rewrite lookup_empty.
Qed.

(** ** The callbacks *)

Section PlaybackFacts.

Context {M T : Type} {match_ops : MatchOps M} {tick_ops : TickCounterOps T}.
Implicit Types s : State M T.

(** What one frame does to each variable, in terms of the [if] chain. *)
Lemma loop_vars (t : Q) s :
  let s1 := fst (advance t s) in
  goalUPS (loop t s) = goalUPS s1
  /\ rewinding (loop t s) = rewinding s1
  /\ interpGameTime (loop t s) = interpGameTime s1
  /\ externalSeek (loop t s) = externalSeek s1
  /\ lastTime (loop t s) = Some t
  /\ conf (loop t s) = conf s1
  /\ the_match (loop t s) = match_compute 5 (the_match s1)
  /\ rendersPerSecond (loop t s) = tc_update t 1 (rendersPerSecond s1).
Proof.
  unfold loop. destruct (advance t s) as [s1 delta]. cbn [fst].
  unfold draw. destruct (interpolating _); cbn; repeat split; reflexivity.
Qed.

(** The rewind toggle followed by the pause toggle always ends paused:
    the first yields 10 or -100, and the second turns either into 0. *)
Lemma onToggleRewind_then_pause s :
  goalUPS (Controls_pause (Controls_rewind s)) = 0%Q
  /\ rewinding (Controls_pause (Controls_rewind s)) = false.
Proof.
  unfold Controls_pause, Controls_rewind, onTogglePause, onToggleRewind. cbn.
  destruct (Qeq_bool (goalUPS s) (-100)); cbn; split; reflexivity.
Qed.

(** The speed and the flag after the [if] chain of a frame. *)
Lemma advance_speed (t : Q) s :
  (goalUPS (fst (advance t s)) = goalUPS s
   /\ rewinding (fst (advance t s)) = rewinding s)
  \/ (rewinding s = true
      /\ goalUPS (fst (advance t s)) = 0%Q
      /\ rewinding (fst (advance t s)) = false).
Proof.
  unfold advance. destruct (lastTime s) as [last |]; [| now left].
  destruct (externalSeek s).
  { destruct (_ =? _); now left. }
  destruct (rewinding s) eqn:R; cbn [andb].
  - destruct (_ <=? 10).
    + right. pose proof (onToggleRewind_then_pause s) as [G W].
      cbn [fst]. now rewrite G, W.
    + destruct (Qltb _ _); now left.
  - destruct (Qltb _ _); now left.
Qed.

Lemma Q10_not_rewind : ~ (10 == -100)%Q.
Proof. intros H. discriminate H. Qed.

Lemma Q0_not_rewind : ~ (0 == -100)%Q.
Proof. intros H. discriminate H. Qed.

Lemma Q300_not_rewind : ~ (300 == -100)%Q.
Proof. intros H. discriminate H. Qed.

Lemma onTogglePause_flag s : flag_matches_speed (onTogglePause s).
Proof.
  unfold flag_matches_speed, onTogglePause. cbn.
  destruct (Qeq_bool (goalUPS s) 0); split; intros H;
    first [discriminate H | now apply Q10_not_rewind in H | now apply Q0_not_rewind in H].
Qed.

Lemma onToggleForward_flag s : flag_matches_speed (onToggleForward s).
Proof.
  unfold flag_matches_speed, onToggleForward. cbn.
  destruct (Qeq_bool (goalUPS s) 300); split; intros H;
    first [discriminate H | now apply Q10_not_rewind in H | now apply Q300_not_rewind in H].
Qed.

Lemma onToggleRewind_flag s :
  flag_matches_speed s -> flag_matches_speed (onToggleRewind s).
Proof.
  unfold flag_matches_speed, onToggleRewind. cbn. intros [Hr Hg].
  destruct (Qeq_bool (goalUPS s) (-100)) eqn:E.
  - apply Qeq_bool_iff in E. rewrite (Hg E). cbn. split; intros H.
    + discriminate H.
    + now apply Q10_not_rewind in H.
  - apply Qeq_bool_false in E. destruct (rewinding s).
    + exfalso. apply E, Hr. reflexivity.
    + cbn. split; reflexivity.
Qed.

Lemma loop_flag (t : Q) s :
  flag_matches_speed s -> flag_matches_speed (loop t s).
Proof.
  intros H. unfold flag_matches_speed.
  destruct (loop_vars t s) as (G & R & _). rewrite G, R.
  destruct (advance_speed t s) as [[G' R'] | (_ & G' & R')]; rewrite G', R'.
  - exact H.
  - split; intros E; [discriminate E | now apply Q0_not_rewind in E].
Qed.

Lemma onkeydown_flag (k : Z) s :
  flag_matches_speed s -> flag_matches_speed (onkeydown k s).
Proof.
  intros H. unfold onkeydown.
  repeat match goal with
         | |- context [match ?x with _ => _ end] => destruct x; try exact H
         end;
    first [ apply onTogglePause_flag | apply onToggleForward_flag
          | now apply onToggleRewind_flag ].
Qed.

(** Every event keeps the flag in step with the speed. *)
Lemma step_flag (e : Event) s :
  flag_matches_speed s -> flag_matches_speed (step e s).
Proof.
  intros H. destruct e; cbn [step].
  - apply onTogglePause_flag.
  - apply onToggleForward_flag.
  - now apply onToggleRewind_flag.
  - exact H.
  - exact H.
  - now apply onkeydown_flag.
  - now apply loop_flag.
Qed.

Lemma run_flag (es : list Event) s :
  flag_matches_speed s -> flag_matches_speed (run es s).
Proof.
  revert s. induction es as [| e es IH]; intros s H; cbn.
  - exact H.
  - apply IH. now apply step_flag.
Qed.

(** ** Call histories *)

Lemma last_render_app (a b : list Call) :
  last_render (a ++ b) =
  match last_render b with Some r => Some r | None => last_render a end.
Proof.
  induction a as [| c a IH]; cbn.
  - now destruct (last_render b).
  - rewrite IH. now destruct (last_render b).
Qed.

Lemma last_seek_app (a b : list Call) :
  last_seek (a ++ b) =
  match last_seek b with Some r => Some r | None => last_seek a end.
Proof.
  induction a as [| c a IH]; cbn.
  - now destruct (last_seek b).
  - rewrite IH. now destruct (last_seek b).
Qed.

(** ** One frame *)

(** The calls of one frame: those of the [if] chain, then a tail that
    holds no [seek] and ends with exactly one [render]. *)
Lemma loop_calls (t : Q) s :
  let s' := loop t s in
  let turn := current_turn (the_match s') in
  exists tail,
    calls s' = calls (fst (advance t s)) ++ tail
    /\ last_seek tail = None
    /\ last_render tail =
       Some (turn, if interpolating s'
                   then Some (Qmin (interpGameTime s' - inject_Z turn) 1)
                   else None).
Proof.
  unfold loop. destruct (advance t s) as [s1 delta]. cbn [fst].
  unfold draw. destruct (interpolating _) eqn:E.
  - eexists. cbn. rewrite <- !app_assoc. split; [reflexivity |].
    unfold interpolating in *. cbn in *. rewrite E. split; reflexivity.
  - eexists. cbn. rewrite <- !app_assoc. split; [reflexivity |].
    unfold interpolating in *. cbn in *. rewrite E. split; reflexivity.
Qed.

(** The frame's [render] call is the latest one in the history. *)
Lemma loop_render (t : Q) s :
  let s' := loop t s in
  let turn := current_turn (the_match s') in
  last_render (calls s') =
  Some (turn, if interpolating s'
              then Some (Qmin (interpGameTime s' - inject_Z turn) 1)
              else None).
Proof.
  cbv zeta. destruct (loop_calls t s) as (tail & C & _ & R).
  rewrite C, last_render_app, R. reflexivity.
Qed.

(** The [if] chain when no seek is pending, the rewind stop does not
    apply and the drift is below ten turns. *)
Lemma advance_moves (t last : Q) s :
  lastTime s = Some last ->
  externalSeek s = false ->
  rewinding s = false \/ 10 < current_turn (the_match s) ->
  (Qabs (interpGameTime s - inject_Z (current_turn (the_match s))) < 10)%Q ->
  let delta := (goalUPS s * (t - last) / 1000)%Q in
  let x := (interpGameTime s + delta)%Q in
  advance t s = (do_seek (toInt32 x) (set_interpGameTime x s), delta).
Proof.
  intros L E R D. cbv zeta. unfold advance. rewrite L, E.
  assert (G : rewinding s && (current_turn (the_match s) <=? 10) = false).
  { destruct R as [R | R]; [now rewrite R |].
    apply andb_false_iff. right. now apply Z.leb_gt. }
  rewrite G. apply Qltb_lt in D. rewrite D. reflexivity.
Qed.

(** The [if] chain while a seek is pending. *)
Lemma advance_seeking (t : Q) s :
  externalSeek s = true ->
  interpGameTime (fst (advance t s)) = interpGameTime s
  /\ externalSeek (fst (advance t s)) = negb (arrived s)
  /\ calls (fst (advance t s)) = calls s.
Proof.
  intros E. unfold advance, arrived. destruct (lastTime s); rewrite ?E; cbn.
  - destruct (_ =? _); cbn; auto.
  - auto.
Qed.

Lemma loop_seeking (t : Q) s :
  externalSeek s = true ->
  interpGameTime (loop t s) = interpGameTime s
  /\ externalSeek (loop t s) = negb (arrived s).
Proof.
  intros E. destruct (loop_vars t s) as (_ & _ & I & X & _).
  destruct (advance_seeking t s E) as (I' & X' & _).
  rewrite I, X. auto.
Qed.

(** ** Runs of frames *)

Lemma frames_cons (t : Q) (ts : list Q) s :
  frames (t :: ts) s = frames ts (loop t s).
Proof. reflexivity. Qed.

(** While the seek branch's test fails, the flag stays up and the
    simulated time stays put. *)
Lemma frames_seeking (ts : list Q) s :
  externalSeek s = true ->
  (forall k, (k < length ts)%nat -> arrived (frames (firstn k ts) s) = false) ->
  externalSeek (frames ts s) = true
  /\ interpGameTime (frames ts s) = interpGameTime s.
Proof.
  revert s. induction ts as [| t ts IH]; intros s E H.
  - cbn. auto.
  - rewrite frames_cons.
    assert (A : arrived s = false) by (apply (H 0%nat); cbn; lia).
    destruct (loop_seeking t s E) as [I X]. rewrite A in X. cbn in X.
    destruct (IH (loop t s) X) as [X' I'].
    + intros k Hk. apply (H (S k)). cbn. lia.
    + rewrite X', I', I. auto.
Qed.

Lemma firstn_length_le_prefix (k : nat) (ts : list Q) s :
  (forall j, (j < length ts)%nat -> arrived (frames (firstn j ts) s) = false) ->
  forall j, (j < length (firstn k ts))%nat ->
            arrived (frames (firstn j (firstn k ts)) s) = false.
Proof.
  intros H j Hj. rewrite length_firstn in Hj.
  rewrite firstn_firstn. replace (Nat.min j k) with j by lia.
  apply H. lia.
Qed.

End PlaybackFacts.

(** * The playback controller *)

Section Controller.

Context {M T : Type} {match_ops : MatchOps M} {tick_ops : TickCounterOps T}.
Implicit Types s : State M T.

(** C1 (amended).  Rewind auto-stop: in every state in which [rewinding]
    holds, the engine's current turn is at most 10, no seek is in flight and
    a previous frame was recorded, one frame runs the rewind toggle and
    then the pause toggle, which leaves [goalUPS] at 0 (paused), not at the
    forward rate, and [rewinding] false. *)
Theorem rewind_auto_stop (t last : Q) s :
  rewinding s = true ->
  current_turn (the_match s) <= 10 ->
  externalSeek s = false ->
  lastTime s = Some last ->
  goalUPS (loop t s) = 0%Q /\ rewinding (loop t s) = false.
Proof.
  intros R C E L.
  destruct (loop_vars t s) as (G & W & _). rewrite G, W.
  unfold advance. rewrite L, E, R. cbn [andb].
  apply Z.leb_le in C. rewrite C. cbn [fst].
  apply onToggleRewind_then_pause.
Qed.

(** C2 (amended).  Per-frame advancement: for every goal speed and every
    pair of consecutive frame timestamps, if no seek is in flight, the
    rewind stop does not apply (not rewinding, or the current turn is above
    10) and the drift is below 10 turns, then after one frame the simulated
    time is its previous value plus [goalUPS * (t - last) / 1000]. *)
Theorem advance_by_speed (t last : Q) s :
  lastTime s = Some last ->
  externalSeek s = false ->
  rewinding s = false \/ 10 < current_turn (the_match s) ->
  (Qabs (interpGameTime s - inject_Z (current_turn (the_match s))) < 10)%Q ->
  interpGameTime (loop t s)
  = (interpGameTime s + goalUPS s * (t - last) / 1000)%Q.
Proof.
  intros L E R D.
  destruct (loop_vars t s) as (_ & _ & I & _). rewrite I.
  rewrite (advance_moves t last s L E R D). reflexivity.
Qed.

(** C3 (amended).  Seek freeze and completion: after [onSeek turn] the flag
    [externalSeek] is up and the simulated time is [turn]; through every
    following frame at which the seek branch's test fails (no previous frame
    recorded yet, or the engine's current turn differs from its seek target)
    the flag stays up and the simulated time stays [turn]; the first frame
    with a previous frame recorded at which the engine's current turn equals
    its target lowers the flag and still leaves the time at [turn]; the
    frame after that advances the time by [goalUPS * (t' - t) / 1000] when
    the rewind stop does not apply and the drift is below 10. *)
Theorem seek_freeze_and_completion (turn : Z) s (ts : list Q) (t t' : Q) :
  let s0 := onSeek turn s in
  let sn := frames ts s0 in
  let s1 := loop t sn in
  (forall k, (k < length ts)%nat -> arrived (frames (firstn k ts) s0) = false) ->
  arrived sn = true ->
  (forall k, (k <= length ts)%nat ->
     externalSeek (frames (firstn k ts) s0) = true
     /\ interpGameTime (frames (firstn k ts) s0) = inject_Z turn)
  /\ externalSeek s1 = false
  /\ interpGameTime s1 = inject_Z turn
  /\ (rewinding s1 = false \/ 10 < current_turn (the_match s1) ->
      (Qabs (interpGameTime s1 - inject_Z (current_turn (the_match s1))) < 10)%Q ->
      interpGameTime (loop t' s1)
      = (interpGameTime s1 + goalUPS s1 * (t' - t) / 1000)%Q).
Proof.
  intros s0 sn s1 Hwait Harr.
  assert (E0 : externalSeek s0 = true) by reflexivity.
  assert (I0 : interpGameTime s0 = inject_Z turn) by reflexivity.
  assert (Hpre : forall k,
             externalSeek (frames (firstn k ts) s0) = true
             /\ interpGameTime (frames (firstn k ts) s0) = inject_Z turn).
  { intros k. rewrite <- I0. apply frames_seeking; [exact E0 |].
    now apply firstn_length_le_prefix. }
  destruct (Hpre (length ts)) as [En In]. rewrite firstn_all in En, In.
  fold sn in En, In.
  destruct (loop_seeking t sn En) as [I1 E1]. fold s1 in I1, E1.
  rewrite Harr in E1. cbn in E1.
  repeat split.
  - apply Hpre.
  - apply Hpre.
  - exact E1.
  - now rewrite I1.
  - intros R D.
    destruct (loop_vars t' s1) as (_ & _ & I & _). rewrite I.
    assert (L1 : lastTime s1 = Some t) by apply (loop_vars t sn).
    rewrite (advance_moves t' t s1 L1 E1 R D). reflexivity.
Qed.

(** C4.  Interpolation gating: the frame's [render] call carries no
    interpolation fraction whenever the current turn plus one reaches the
    number of loaded deltas, and whenever [goalUPS] is at least the measured
    render rate; it carries one exactly when interpolation is enabled, the
    current turn plus one is below the number of loaded deltas, and
    [goalUPS] is below the measured render rate. *)
Theorem interpolation_gating (t : Q) s :
  let s' := loop t s in
  let turn := current_turn (the_match s') in
  exists lerp : option Q,
    last_render (calls s') = Some (turn, lerp)
    /\ (deltas_length (the_match s') <= turn + 1 -> lerp = None)
    /\ ((tc_tps (rendersPerSecond s') <= goalUPS s')%Q -> lerp = None)
    /\ (lerp <> None <->
        ConfigExt.interpolate (conf s') = true
        /\ turn + 1 < deltas_length (the_match s')
        /\ (goalUPS s' < tc_tps (rendersPerSecond s'))%Q).
Proof.
  cbv zeta. eexists. split; [apply loop_render |].
  set (s' := loop t s). unfold interpolating.
  destruct (ConfigExt.interpolate (conf s')) eqn:Ei;
    destruct (current_turn (the_match s') + 1 <? deltas_length (the_match s')) eqn:Ed;
    destruct (Qltb (goalUPS s') (tc_tps (rendersPerSecond s'))) eqn:Eg;
    cbn [andb];
    rewrite ?Z.ltb_lt, ?Z.ltb_ge in Ed;
    rewrite ?Qltb_lt, ?Qltb_ge in Eg;
    (split; [intros H; first [reflexivity | lia] |]);
    (split; [intros H; first [reflexivity | exfalso; lra] |]);
    (split; [intros H; first [now contradiction H
                             | repeat split; first [assumption | reflexivity]]
            | intros (H1 & H2 & H3);
              first [discriminate | lia | exfalso; lra]]).
Qed.

(** C5 (amended).  Fraction of an interpolated frame: whenever the frame's
    [render] call carries a fraction, that fraction is [min (interpGameTime
    - turn) 1]; it is at most 1; it lies in [[0, 1]] and equals [clamp
    (interpGameTime - turn) 0 1] when the simulated time is not behind the
    current turn, and it is the negative difference itself otherwise. *)
Theorem lerp_is_min_with_one (t : Q) s (turn : Z) (lerp : Q) :
  last_render (calls (loop t s)) = Some (turn, Some lerp) ->
  let d := (interpGameTime (loop t s)
            - inject_Z (current_turn (the_match (loop t s))))%Q in
  turn = current_turn (the_match (loop t s))
  /\ lerp = Qmin d 1
  /\ (lerp <= 1)%Q
  /\ ((0 <= d)%Q -> (0 <= lerp)%Q /\ (lerp == clamp d 0 1)%Q)
  /\ ((d < 0)%Q -> (lerp == d)%Q /\ (lerp < 0)%Q).
Proof.
  intros H d. rewrite loop_render in H.
  destruct (interpolating (loop t s)); [| discriminate H].
  injection H as Ht Hl. fold d in Hl. subst lerp. split; [now symmetry |].
  split; [reflexivity |]. split; [apply Q.le_min_r |]. split.
  - intros Hd.
    assert (G : (0 <= Qmin d 1)%Q) by (apply Q.min_glb; [exact Hd | discriminate]).
    split; [exact G |]. unfold clamp. symmetry. now apply Q.max_r.
  - intros Hd.
    assert (G : (Qmin d 1 == d)%Q) by (apply Q.min_l; lra).
    split; [exact G |]. rewrite G. exact Hd.
Qed.

(** C6 (amended).  Seek target of an advancing frame: on every frame that
    advances the simulated time, exactly one [seek] is requested from the
    engine and its argument is [interpGameTime | 0], the new simulated time
    rounded toward zero and wrapped to 32 bits; this is [floor
    interpGameTime] whenever the new time is at least 0 and below [2^31]. *)
Theorem seek_request_truncates (t last : Q) s :
  lastTime s = Some last ->
  externalSeek s = false ->
  rewinding s = false \/ 10 < current_turn (the_match s) ->
  (Qabs (interpGameTime s - inject_Z (current_turn (the_match s))) < 10)%Q ->
  let x := interpGameTime (loop t s) in
  (exists tail,
      calls (loop t s) = calls s ++ MatchSeek (toInt32 x) :: tail
      /\ last_seek tail = None)
  /\ the_match (loop t s) = match_compute 5 (match_seek (toInt32 x) (the_match s))
  /\ ((0 <= x)%Q -> (x < inject_Z (2 ^ 31))%Q -> toInt32 x = Qfloor x).
Proof.
  intros L E R D x.
  destruct (loop_vars t s) as (_ & _ & I & _ & _ & _ & Mt & _).
  destruct (loop_calls t s) as (tail & C & S & _).
  pose proof (advance_moves t last s L E R D) as A. cbv zeta in A.
  rewrite A in I, C, Mt. cbn in I, C, Mt.
  subst x. rewrite I. split; [| split].
  - exists tail. rewrite C, <- app_assoc. cbn. auto.
  - exact Mt.
  - apply toInt32_floor.
Qed.

(** C7 (amended).  Seek targets are not clamped by the controller: for
    every target, in the loaded range or not, [onSeek] passes the target
    to the engine's [seek] unchanged, sets the simulated time to it and
    raises [externalSeek]; the next frame runs and leaves that time in
    place.  A timeline click whose [offsetX] lies within the canvas width
    yields a target between 0 and the farthest turn. *)
Theorem seek_target_not_clamped (turn : Z) s :
  let s' := onSeek turn s in
  calls s' = calls s ++ [MatchSeek turn]
  /\ the_match s' = match_seek turn (the_match s)
  /\ interpGameTime s' = inject_Z turn
  /\ externalSeek s' = true
  /\ (forall t, interpGameTime (loop t s') = inject_Z turn)
  /\ (forall (offsetX : Q) (maxWidth : positive),
        0 <= farthest_turn (the_match s) ->
        (0 <= offsetX)%Q -> (offsetX <= inject_Z (Z.pos maxWidth))%Q ->
        exists target,
          0 <= target <= farthest_turn (the_match s)
          /\ calls (timeline_mousedown offsetX maxWidth s) = calls s ++ [MatchSeek target]
          /\ interpGameTime (timeline_mousedown offsetX maxWidth s) = inject_Z target).
Proof.
  cbv zeta. repeat split.
  - intros t. now destruct (loop_seeking t (onSeek turn s) eq_refl) as [I _].
  - intros offsetX maxWidth Hf Hx0 Hx1.
    set (F := inject_Z (farthest_turn (the_match s))).
    set (W := inject_Z (Z.pos maxWidth)) in *.
    assert (HW : (0 < W)%Q) by (unfold W, Qlt; cbn; lia).
    assert (HF : (0 <= F)%Q) by (unfold F, Qle; cbn; lia).
    assert (Hlo : (0 <= F * offsetX / W)%Q).
    { apply Qle_shift_div_l; [exact HW |]. rewrite Qmult_0_l.
      now apply Qmult_le_0_compat. }
    assert (Hhi : (F * offsetX / W <= F)%Q).
    { apply Qle_shift_div_r; [exact HW |].
      rewrite (Qmult_comm F offsetX), (Qmult_comm F W).
      apply Qmult_le_compat_r; assumption. }
    exists (Qfloor (F * offsetX / W)). split; [| split; reflexivity].
    split.
    + apply Qfloor_resp_le in Hlo. exact Hlo.
    + apply Qfloor_resp_le in Hhi. unfold F in Hhi at 2.
      now rewrite Qfloor_Z in Hhi.
Qed.

(** The speed after two pause toggles, and after two fast-forward ones. *)
Lemma pause_twice s :
  goalUPS (onTogglePause (onTogglePause s))
  = (if Qeq_bool (goalUPS s) 0 then 0 else 10)%Q.
Proof.
  unfold onTogglePause. cbn. now destruct (Qeq_bool (goalUPS s) 0).
Qed.

Lemma forward_twice s :
  goalUPS (onToggleForward (onToggleForward s))
  = (if Qeq_bool (goalUPS s) 300 then 300 else 10)%Q.
Proof.
  unfold onToggleForward. cbn. now destruct (Qeq_bool (goalUPS s) 300).
Qed.

(** C8 (amended).  Toggling twice: two pause toggles in a row return
    [goalUPS] to its earlier value exactly when that value was 0 or 10, and
    two fast-forward toggles exactly when it was 10 or 300; from any other
    speed either pair ends at 10. *)
Theorem toggle_twice s :
  ((goalUPS (onTogglePause (onTogglePause s)) == goalUPS s)%Q
   <-> (goalUPS s == 0)%Q \/ (goalUPS s == 10)%Q)
  /\ ((goalUPS (onToggleForward (onToggleForward s)) == goalUPS s)%Q
      <-> (goalUPS s == 10)%Q \/ (goalUPS s == 300)%Q)
  /\ goalUPS (onTogglePause (onTogglePause s))
     = (if Qeq_bool (goalUPS s) 0 then 0 else 10)%Q
  /\ goalUPS (onToggleForward (onToggleForward s))
     = (if Qeq_bool (goalUPS s) 300 then 300 else 10)%Q.
Proof.
  rewrite pause_twice, forward_twice.
  split; [| split; [| split; reflexivity]].
  - destruct (Qeq_bool (goalUPS s) 0) eqn:E.
    + apply Qeq_bool_iff in E. split; [now left | intros _; now symmetry].
    + apply Qeq_bool_false in E. split.
      * intros H. right. now symmetry.
      * intros [H | H]; [contradiction | now symmetry].
  - destruct (Qeq_bool (goalUPS s) 300) eqn:E.
    + apply Qeq_bool_iff in E. split; [now right | intros _; now symmetry].
    + apply Qeq_bool_false in E. split.
      * intros H. left. now symmetry.
      * intros [H | H]; [now symmetry | contradiction].
Qed.

(** C9.  Rewind-flag invariant: the state [runMatch] starts from has
    [goalUPS] 10 and [rewinding] false; every event (a callback, a timeline
    click, a key press, a frame) keeps [rewinding] true exactly at the
    rewind rate -100; hence so is every state reached from the start. *)
Theorem rewinding_iff_rewind_rate (c : ConfigExt.Config) (m : M) (es : list Event) :
  let s := run es (runMatch c m) in
  (goalUPS (runMatch c m) = 10%Q /\ rewinding (runMatch c m) = false)
  /\ (forall (e : Event) (s0 : State M T),
        (rewinding s0 = true <-> (goalUPS s0 == -100)%Q) ->
        (rewinding (step e s0) = true <-> (goalUPS (step e s0) == -100)%Q))
  /\ (rewinding s = true <-> (goalUPS s == -100)%Q).
Proof.
  cbv zeta. split; [split; reflexivity |]. split.
  - intros e s0. apply step_flag.
  - apply run_flag. unfold flag_matches_speed. cbn. split; intros H.
    + discriminate H.
    + now apply Q10_not_rewind in H.
Qed.

End Controller.

(** * Configuration defaults *)

Lemma coalesce_default (supplied : JSValue) (k : string) (d : JSValue) :
  truthy (js_get supplied k) = false ->
  js_or (js_get (js_or supplied (JObj ∅)) k) d = d.
Proof. intros H. rewrite js_get_coalesced. now apply js_or_falsy. Qed.

(** C10.  Falsy-coalescing defaults: 0, [false], the empty string, [null]
    and [undefined] are falsy; for every supplied value, each option whose
    supplied field is falsy comes out as the built-in default, in both
    revisions of [defaults]; for instance a supplied width of 0 gives 600
    and a supplied defaultTPS of 0 gives 20; and the revision with an
    [interpolate] field returns [interpolate = true] whatever is supplied,
    also when [interpolate: false] is passed. *)
Theorem defaults_falsy_coalescing (supplied : JSValue) :
  (truthy (JNum 0) = false /\ truthy (JBool false) = false
   /\ truthy (JStr "") = false /\ truthy JNull = false
   /\ truthy JUndefined = false)
  /\ ((truthy (js_get supplied "gameVersion") = false ->
       Config.gameVersion (Config.defaults supplied) = JStr "ANY")
      /\ (truthy (js_get supplied "fullscreen") = false ->
          Config.fullscreen (Config.defaults supplied) = JBool false)
      /\ (truthy (js_get supplied "width") = false ->
          Config.width (Config.defaults supplied) = JNum 600)
      /\ (truthy (js_get supplied "height") = false ->
          Config.height (Config.defaults supplied) = JNum 600)
      /\ (truthy (js_get supplied "defaultTPS") = false ->
          Config.defaultTPS (Config.defaults supplied) = JNum 20))
  /\ ((truthy (js_get supplied "gameVersion") = false ->
       ConfigExt.gameVersion (ConfigExt.defaults supplied) = JStr "ANY")
      /\ (truthy (js_get supplied "fullscreen") = false ->
          ConfigExt.fullscreen (ConfigExt.defaults supplied) = JBool false)
      /\ (truthy (js_get supplied "width") = false ->
          ConfigExt.width (ConfigExt.defaults supplied) = JNum 600)
      /\ (truthy (js_get supplied "height") = false ->
          ConfigExt.height (ConfigExt.defaults supplied) = JNum 600)
      /\ (truthy (js_get supplied "defaultTPS") = false ->
          ConfigExt.defaultTPS (ConfigExt.defaults supplied) = JNum 20)
      /\ (truthy (js_get supplied "websocketURL") = false ->
          ConfigExt.websocketURL (ConfigExt.defaults supplied) = JNull)
      /\ (truthy (js_get supplied "pollEvery") = false ->
          ConfigExt.pollEvery (ConfigExt.defaults supplied) = JNum 500))
  /\ (Config.width (Config.defaults (JObj {[ "width" := JNum 0 ]})) = JNum 600
      /\ Config.defaultTPS (Config.defaults (JObj {[ "defaultTPS" := JNum 0 ]})) = JNum 20
      /\ ConfigExt.width (ConfigExt.defaults (JObj {[ "width" := JNum 0 ]})) = JNum 600
      /\ ConfigExt.defaultTPS (ConfigExt.defaults (JObj {[ "defaultTPS" := JNum 0 ]}))
         = JNum 20)
  /\ ConfigExt.interpolate (ConfigExt.defaults supplied) = true
  /\ ConfigExt.interpolate
       (ConfigExt.defaults (JObj {[ "interpolate" := JBool false ]})) = true.
Proof.
  split; [repeat split |].
  split; [repeat split; intros H; now apply coalesce_default |].
  split; [repeat split; intros H; now apply coalesce_default |].
  split; [repeat split; vm_compute; reflexivity |].
  split; reflexivity.
Qed.

(** * The claims on concrete runs *)

(** The hypotheses of [rewind_auto_stop] hold when rewind is engaged at
    turn 5, and the frame leaves the match paused. *)
Lemma rewind_auto_stop_at_turn_5 :
  rewinding rewinding_near_start = true
  /\ goalUPS (loop 16 rewinding_near_start) = 0%Q
  /\ rewinding (loop 16 rewinding_near_start) = false.
Proof.
  split; [reflexivity |].
  apply (rewind_auto_stop 16 0 rewinding_near_start).
  - reflexivity.
  - vm_compute. discriminate.
  - reflexivity.
  - reflexivity.
Defined.

(** C1 as stated fails: with rewind engaged at turn 5, no seek in flight
    and a previous frame recorded, the next frame leaves [goalUPS] at 0 and
    not at the forward rate 10. *)
Lemma rewind_auto_stop_not_forward_rate :
  rewinding rewinding_near_start = true
  /\ current_turn (the_match rewinding_near_start) <= 10
  /\ externalSeek rewinding_near_start = false
  /\ lastTime rewinding_near_start = Some 0%Q
  /\ goalUPS (loop 16 rewinding_near_start) = 0%Q
  /\ ~ (goalUPS (loop 16 rewinding_near_start) == 10)%Q.
Proof.
  repeat split; try reflexivity.
  - vm_compute. discriminate.
  - vm_compute. discriminate.
Qed.

(** The hypotheses of [advance_by_speed] hold one frame into a fresh
    match; 16 ms at speed 10 move the time from 0 to 0.16. *)
Lemma advance_by_speed_playing :
  interpGameTime playing = 0%Q
  /\ goalUPS playing = 10%Q
  /\ interpGameTime (loop 16 playing) = (0 + 10 * (16 - 0) / 1000)%Q.
Proof.
  split; [reflexivity |]. split; [reflexivity |].
  apply (advance_by_speed 16 0 playing).
  - reflexivity.
  - reflexivity.
  - left. reflexivity.
  - vm_compute. reflexivity.
Defined.

(** C2 as stated fails: with rewind engaged at turn 5 no seek is in flight
    and the drift is 5, yet the frame leaves the simulated time at 0
    instead of moving it by -100 * 16 / 1000. *)
Lemma advance_by_speed_not_when_rewind_stops :
  externalSeek rewinding_near_start = false
  /\ lastTime rewinding_near_start = Some 0%Q
  /\ (Qabs (interpGameTime rewinding_near_start
            - inject_Z (current_turn (the_match rewinding_near_start))) < 10)%Q
  /\ interpGameTime (loop 16 rewinding_near_start) = 0%Q
  /\ ~ (interpGameTime (loop 16 rewinding_near_start)
        == interpGameTime rewinding_near_start
           + goalUPS rewinding_near_start * (16 - 0) / 1000)%Q.
Proof.
  repeat split; try reflexivity.
  vm_compute. discriminate.
Qed.

(** The hypotheses of [seek_freeze_and_completion] hold for a seek to turn
    50 on an engine that moves 20 turns per frame: three frames wait, the
    fourth clears the flag, the fifth advances again. *)
Lemma seek_completes_at_turn_50 :
  let waiting := frames [16; 32; 48]%Q (onSeek 50 playing) in
  externalSeek waiting = true
  /\ interpGameTime waiting = 50%Q
  /\ externalSeek (loop 64 waiting) = false
  /\ interpGameTime (loop 64 waiting) = 50%Q
  /\ interpGameTime (loop 80 (loop 64 waiting)) = (50 + 10 * (80 - 64) / 1000)%Q.
Proof.
  cbv zeta.
  destruct (seek_freeze_and_completion 50 playing [16; 32; 48]%Q 64 80)
    as (F & E & I & R).
  - intros k Hk. destruct k as [| [| [| k]]]; [reflexivity .. | cbn in Hk; lia].
  - reflexivity.
  - destruct (F 3%nat (le_n _)) as [F1 F2].
    split; [exact F1 |]. split; [exact F2 |].
    split; [exact E |]. split; [exact I |].
    apply R.
    + left. reflexivity.
    + vm_compute. reflexivity.
Defined.

(** C3 as stated fails: the stop key pressed before the first frame
    requests a seek to turn 0 while the engine already stands at turn 0; the
    first frame only records its timestamp and leaves [externalSeek] up
    although the current turn equals the target; the second frame lowers
    it. *)
Lemma seek_not_cleared_on_first_frame :
  externalSeek restarted_before_first_frame = true
  /\ current_turn (the_match restarted_before_first_frame)
     = seekTo (the_match restarted_before_first_frame)
  /\ lastTime restarted_before_first_frame = None
  /\ externalSeek (loop 0 restarted_before_first_frame) = true
  /\ externalSeek (loop 16 (loop 0 restarted_before_first_frame)) = false.
Proof. repeat split; reflexivity. Qed.

(** The hypothesis of [lerp_is_min_with_one] holds on the second frame of
    a fresh match: the fraction is 0.16, within [[0, 1]]. *)
Lemma lerp_of_second_frame :
  last_render (calls (loop 16 playing)) = Some (0, Some 0.160%Q)
  /\ (0.160 <= 1)%Q
  /\ (0 <= 0.160)%Q.
Proof.
  assert (H : last_render (calls (loop 16 playing)) = Some (0, Some 0.160%Q))
    by reflexivity.
  destruct (lerp_is_min_with_one 16 playing 0 0.160%Q H) as (_ & _ & U & L & _).
  split; [exact H |]. split; [exact U |].
  apply L. vm_compute. discriminate.
Defined.

(** C5 as stated fails: while rewinding from turn 20 with an engine that
    moves one turn per frame, the simulated time drops to 18.4 while the
    engine is at turn 19; the interpolated frame is rendered with fraction
    -0.6, which is below 0 and is not [clamp (18.4 - 19) 0 1 = 0]. *)
Lemma lerp_negative_when_engine_lags :
  last_render (calls (loop 32 rewinding_slow_engine)) = Some (19, Some (-0.600)%Q)
  /\ interpGameTime (loop 32 rewinding_slow_engine) = 18.400%Q
  /\ current_turn (the_match (loop 32 rewinding_slow_engine)) = 19
  /\ (-0.600 < 0)%Q
  /\ ~ (-0.600 == clamp (18.400 - inject_Z 19) 0 1)%Q.
Proof.
  repeat split; try reflexivity.
  vm_compute. discriminate.
Qed.

(** The hypotheses of [seek_request_truncates] hold on the second frame of
    a fresh match: the time becomes 0.16 and the engine is asked for turn
    0, which is its floor. *)
Lemma seek_request_of_second_frame :
  last_seek (calls (loop 16 playing)) = Some 0
  /\ toInt32 (interpGameTime (loop 16 playing))
     = Qfloor (interpGameTime (loop 16 playing)).
Proof.
  split; [reflexivity |].
  destruct (seek_request_truncates 16 0 playing) as (_ & _ & Fl).
  - reflexivity.
  - reflexivity.
  - left. reflexivity.
  - vm_compute. reflexivity.
  - apply Fl.
    + vm_compute. discriminate.
    + vm_compute. reflexivity.
Defined.

(** C6 as stated fails: rewinding at turn 11 with the time at 11, a frame
    115 ms after the previous one advances the time to -0.5 and asks the
    engine for turn 0, while [floor (-0.5)] is -1. *)
Lemma seek_request_not_floor_below_zero :
  lastTime rewinding_at_11 = Some 16%Q
  /\ externalSeek rewinding_at_11 = false
  /\ current_turn (the_match rewinding_at_11) = 11
  /\ interpGameTime rewinding_at_11 = 11%Q
  /\ interpGameTime (loop 131 rewinding_at_11) = (-0.500)%Q
  /\ last_seek (calls (loop 131 rewinding_at_11)) = Some 0
  /\ Qfloor (interpGameTime (loop 131 rewinding_at_11)) = -1.
Proof. repeat split; reflexivity. Qed.

(** C7 as stated fails: a seek to turn -5 on a match whose farthest turn is
    100 reaches the engine as [seek (-5)], and the simulated time becomes
    -5; nothing was clamped into [[0, 100]]. *)
Lemma seek_below_zero_reaches_engine :
  farthest_turn (the_match playing) = 100
  /\ last_seek (calls (onSeek (-5) playing)) = Some (-5)
  /\ interpGameTime (onSeek (-5) playing) = (-5)%Q
  /\ ~ (0 <= -5).
Proof.
  repeat split; try reflexivity.
  lia.
Qed.

(** C8 as stated fails: from fast-forward (speed 300) two pause toggles
    end at speed 10, not back at 300. *)
Lemma pause_twice_from_fast_forward :
  goalUPS fast_forwarding = 300%Q
  /\ goalUPS (onTogglePause (onTogglePause fast_forwarding)) = 10%Q
  /\ ~ (goalUPS (onTogglePause (onTogglePause fast_forwarding))
        == goalUPS fast_forwarding)%Q.
Proof.
  repeat split; try reflexivity.
  vm_compute. discriminate.
Qed.

(** * Further properties of the playback loop *)

Section Frames.

Context {M T : Type} {match_ops : MatchOps M} {tick_ops : TickCounterOps T}.
Implicit Types s : State M T.

(** The four outcomes of the [if] chain: nothing changes; a pending seek
    is found complete; the rewind stop fires; the time advances. *)
Lemma advance_cases (t : Q) s :
  fst (advance t s) = s
  \/ (externalSeek s = true /\ fst (advance t s) = set_externalSeek false s)
  \/ (rewinding s = true /\ fst (advance t s) = Controls_pause (Controls_rewind s))
  \/ (exists last,
        lastTime s = Some last
        /\ externalSeek s = false
        /\ fst (advance t s)
           = do_seek (toInt32 (interpGameTime s + goalUPS s * (t - last) / 1000))
                     (set_interpGameTime (interpGameTime s + goalUPS s * (t - last) / 1000) s)).
Proof.
  unfold advance. destruct (lastTime s) as [last |]; [| now left].
  destruct (externalSeek s) eqn:E.
  { destruct (_ =? _); [right; left; now split | now left]. }
  destruct (rewinding s) eqn:R; cbn [andb].
  - destruct (_ <=? 10).
    + right. right. left. now split.
    + destruct (Qltb _ _); [| now left].
      right. right. right. exists last. repeat split.
  - destruct (Qltb _ _); [| now left].
    right. right. right. exists last. repeat split.
Qed.

(** The calls the [if] chain adds: none, or one [seek]. *)
Lemma advance_calls (t : Q) s :
  calls (fst (advance t s)) = calls s
  \/ (exists turn,
        externalSeek s = false
        /\ calls (fst (advance t s)) = calls s ++ [MatchSeek turn]).
Proof.
  destruct (advance_cases t s) as [H | [[_ H] | [[_ H] | (last & _ & E & H)]]];
    rewrite H; [now left | now left | now left |].
  right. eexists. split; [exact E | reflexivity].
Qed.

(** The time after the [if] chain: unchanged, or moved by the speed. *)
Lemma advance_time (t : Q) s :
  interpGameTime (fst (advance t s)) = interpGameTime s
  \/ (exists last,
        lastTime s = Some last
        /\ interpGameTime (fst (advance t s))
           = (interpGameTime s + goalUPS s * (t - last) / 1000)%Q).
Proof.
  destruct (advance_cases t s) as [H | [[_ H] | [[_ H] | (last & L & _ & H)]]];
    rewrite H; [now left | now left | now left |].
  right. exists last. split; [exact L | reflexivity].
Qed.

(** The whole list of calls of one frame. *)
Lemma loop_call_list (t : Q) s :
  let s1 := fst (advance t s) in
  let s' := loop t s in
  let turn := current_turn (the_match s') in
  calls s'
  = calls s1
    ++ [SetTime (current_turn (the_match s1)) (farthest_turn (the_match s1))
                (tc_tps (updatesPerSecond s')) (tc_tps (rendersPerSecond s'));
        MatchCompute 5]
    ++ (if interpolating s'
        then [LoadNextStep turn (turn + 1);
              Render turn (Some (Qmin (interpGameTime s' - inject_Z turn) 1))]
        else [Render turn None])
    ++ [RequestAnimationFrame].
Proof.
  unfold loop. destruct (advance t s) as [s1 delta]. cbn [fst].
  unfold draw. destruct (interpolating _) eqn:E.
  - cbn. unfold interpolating in *. cbn in *. rewrite E.
    now rewrite <- !app_assoc.
  - cbn. unfold interpolating in *. cbn in *. rewrite E.
    now rewrite <- !app_assoc.
Qed.

(** The counters after one frame: the render counter is fed 1, the update
    counter the frame's [delta]. *)
Lemma loop_counters (t : Q) s :
  rendersPerSecond (loop t s) = tc_update t 1 (rendersPerSecond (fst (advance t s)))
  /\ updatesPerSecond (loop t s)
     = tc_update t (snd (advance t s)) (updatesPerSecond (fst (advance t s))).
Proof.
  unfold loop. destruct (advance t s) as [s1 delta]. cbn [fst snd].
  unfold draw. destruct (interpolating _); cbn; split; reflexivity.
Qed.

(** A frame whose [if] chain changes nothing. *)
Lemma loop_idle (t : Q) s :
  advance t s = (s, 0%Q) ->
  goalUPS (loop t s) = goalUPS s
  /\ rewinding (loop t s) = rewinding s
  /\ interpGameTime (loop t s) = interpGameTime s
  /\ externalSeek (loop t s) = externalSeek s
  /\ lastTime (loop t s) = Some t
  /\ the_match (loop t s) = match_compute 5 (the_match s)
  /\ updatesPerSecond (loop t s) = tc_update t 0 (updatesPerSecond s)
  /\ exists tail, calls (loop t s) = calls s ++ tail /\ last_seek tail = None.
Proof.
  intros A.
  destruct (loop_vars t s) as (G & R & I & E & L & _ & Mt & _).
  destruct (loop_counters t s) as [_ U].
  destruct (loop_calls t s) as (tail & C & S & _).
  rewrite A in *. cbn [fst snd] in *.
  repeat split; try assumption. exists tail. now split.
Qed.

Lemma advance_first (t : Q) s : lastTime s = None -> advance t s = (s, 0%Q).
Proof. intros L. unfold advance. now rewrite L. Qed.

Lemma advance_stalled (t last : Q) s :
  lastTime s = Some last ->
  externalSeek s = false ->
  rewinding s = false \/ 10 < current_turn (the_match s) ->
  (10 <= Qabs (interpGameTime s - inject_Z (current_turn (the_match s))))%Q ->
  advance t s = (s, 0%Q).
Proof.
  intros L E R D. unfold advance. rewrite L, E.
  assert (G : rewinding s && (current_turn (the_match s) <=? 10) = false).
  { destruct R as [R | R]; [now rewrite R |].
    apply andb_false_iff. right. now apply Z.leb_gt. }
  rewrite G. apply Qltb_ge in D. now rewrite D.
Qed.

(** X1.  Speed range: in every state reached from [runMatch] by callbacks,
    timeline clicks, key presses and frames, [goalUPS] is one of the four
    literals 10, 0, 300 and -100. *)
Theorem speed_among_four (c : ConfigExt.Config) (m : M) (es : list Event) :
  let g := goalUPS (run es (runMatch c m)) in
  g = 10%Q \/ g = 0%Q \/ g = 300%Q \/ g = (-100)%Q.
Proof.
  cbv zeta.
  assert (Hstep : forall e s,
             (goalUPS s = 10%Q \/ goalUPS s = 0%Q \/ goalUPS s = 300%Q
              \/ goalUPS s = (-100)%Q) ->
             goalUPS (step e s) = 10%Q \/ goalUPS (step e s) = 0%Q
             \/ goalUPS (step e s) = 300%Q \/ goalUPS (step e s) = (-100)%Q).
  { assert (P : forall s, goalUPS (onTogglePause s) = 10%Q
                          \/ goalUPS (onTogglePause s) = 0%Q
                          \/ goalUPS (onTogglePause s) = 300%Q
                          \/ goalUPS (onTogglePause s) = (-100)%Q).
    { intros s. unfold onTogglePause. cbn. destruct (Qeq_bool _ _); auto. }
    assert (F : forall s, goalUPS (onToggleForward s) = 10%Q
                          \/ goalUPS (onToggleForward s) = 0%Q
                          \/ goalUPS (onToggleForward s) = 300%Q
                          \/ goalUPS (onToggleForward s) = (-100)%Q).
    { intros s. unfold onToggleForward. cbn. destruct (Qeq_bool _ _); auto. }
    assert (W : forall s, goalUPS (onToggleRewind s) = 10%Q
                          \/ goalUPS (onToggleRewind s) = 0%Q
                          \/ goalUPS (onToggleRewind s) = 300%Q
                          \/ goalUPS (onToggleRewind s) = (-100)%Q).
    { intros s. unfold onToggleRewind. cbn. destruct (Qeq_bool _ _); auto. }
    intros e s H. destruct e; cbn [step]; auto.
    - unfold onkeydown.
      repeat match goal with
             | |- context [match ?x with _ => _ end] => destruct x; try exact H
             end; auto.
    - destruct (loop_vars curTime s) as (G & _). rewrite G.
      destruct (advance_speed curTime s) as [[G' _] | (_ & G' & _)];
        rewrite G'; auto. }
  generalize (runMatch c m), (or_introl eq_refl : goalUPS (runMatch c m) = 10%Q
    \/ goalUPS (runMatch c m) = 0%Q \/ goalUPS (runMatch c m) = 300%Q
    \/ goalUPS (runMatch c m) = (-100)%Q).
  induction es as [| e es IH]; intros s H; cbn.
  - exact H.
  - apply IH. now apply Hstep.
Qed.

(** X2.  Drift stall: with a previous frame recorded, no seek in flight
    and the rewind stop not applying, a frame whose drift is 10 turns or
    more leaves the speed, the flag and the simulated time unchanged, asks
    the engine for no seek, feeds the update counter 0, and lets the engine
    compute for 5 ms. *)
Theorem drift_stall (t last : Q) s :
  lastTime s = Some last ->
  externalSeek s = false ->
  rewinding s = false \/ 10 < current_turn (the_match s) ->
  (10 <= Qabs (interpGameTime s - inject_Z (current_turn (the_match s))))%Q ->
  goalUPS (loop t s) = goalUPS s
  /\ rewinding (loop t s) = rewinding s
  /\ interpGameTime (loop t s) = interpGameTime s
  /\ externalSeek (loop t s) = false
  /\ the_match (loop t s) = match_compute 5 (the_match s)
  /\ updatesPerSecond (loop t s) = tc_update t 0 (updatesPerSecond s)
  /\ exists tail, calls (loop t s) = calls s ++ tail /\ last_seek tail = None.
Proof.
  intros L E R D.
  destruct (loop_idle t s (advance_stalled t last s L E R D))
    as (G & W & I & X & _ & Mt & U & C).
  rewrite E in X. repeat split; assumption.
Qed.

(** X3.  First frame: when no previous frame was recorded, a frame only
    records its timestamp: whatever the flags, the speed, the rewind flag,
    the seek flag and the simulated time are unchanged and no seek is
    requested from the engine. *)
Theorem first_frame_only_records_time (t : Q) s :
  lastTime s = None ->
  lastTime (loop t s) = Some t
  /\ goalUPS (loop t s) = goalUPS s
  /\ rewinding (loop t s) = rewinding s
  /\ interpGameTime (loop t s) = interpGameTime s
  /\ externalSeek (loop t s) = externalSeek s
  /\ the_match (loop t s) = match_compute 5 (the_match s)
  /\ exists tail, calls (loop t s) = calls s ++ tail /\ last_seek tail = None.
Proof.
  intros L.
  destruct (loop_idle t s (advance_first t s L))
    as (G & W & I & X & L' & Mt & _ & C).
  repeat split; assumption.
Qed.

(** X4.  Shape of a frame: every frame issues, in this order, at most one
    [seek], then one [setTime], one [compute] with a budget of 5, one
    [render] (preceded by [loadNextStep] for the following turn when it is
    interpolated), and finally one [requestAnimationFrame]. *)
Theorem frame_call_sequence (t : Q) s :
  let s' := loop t s in
  let turn := current_turn (the_match s') in
  exists pre time loaded post,
    calls s'
    = calls s ++ pre
      ++ [SetTime time loaded (tc_tps (updatesPerSecond s')) (tc_tps (rendersPerSecond s'));
          MatchCompute 5]
      ++ post ++ [RequestAnimationFrame]
    /\ (pre = [] \/ exists x, pre = [MatchSeek x])
    /\ (post = [Render turn None]
        \/ exists lerp, post = [LoadNextStep turn (turn + 1); Render turn (Some lerp)]).
Proof.
  cbv zeta. rewrite loop_call_list.
  destruct (advance_calls t s) as [C | (x & _ & C)]; rewrite C.
  - exists []. do 2 eexists.
    destruct (interpolating (loop t s)); eexists;
      (split; [reflexivity |]); (split; [now left |]); eauto.
  - exists [MatchSeek x]. do 2 eexists.
    destruct (interpolating (loop t s)); eexists;
      (split; [now rewrite <- app_assoc |]); (split; [eauto |]); eauto.
Qed.

(** X5.  Pause freezes time: a frame taken at speed 0 leaves the
    simulated time equal to what it was. *)
Theorem paused_frame_keeps_time (t : Q) s :
  (goalUPS s == 0)%Q ->
  (interpGameTime (loop t s) == interpGameTime s)%Q.
Proof.
  intros G. destruct (loop_vars t s) as (_ & _ & I & _). rewrite I.
  destruct (advance_time t s) as [H | (last & _ & H)]; rewrite H.
  - reflexivity.
  - rewrite G. field.
Qed.

(** X6.  Direction of time: when frame timestamps do not go back, a frame
    never decreases the simulated time at a non-negative speed and never
    increases it at a non-positive speed. *)
Theorem time_follows_speed_sign (t : Q) s :
  (forall last, lastTime s = Some last -> (last <= t)%Q) ->
  ((0 <= goalUPS s)%Q -> (interpGameTime s <= interpGameTime (loop t s))%Q)
  /\ ((goalUPS s <= 0)%Q -> (interpGameTime (loop t s) <= interpGameTime s)%Q).
Proof.
  intros Hmono. destruct (loop_vars t s) as (_ & _ & I & _). rewrite I.
  destruct (advance_time t s) as [H | (last & L & H)]; rewrite H.
  - split; intros _; apply Qle_refl.
  - specialize (Hmono last L).
    set (g := goalUPS s) in *. set (x := interpGameTime s).
    assert (Hd : (0 <= t - last)%Q) by lra.
    split; intros Hg.
    + assert (Hp : (0 <= g * (t - last))%Q) by now apply Qmult_le_0_compat.
      assert (Hq : (0 <= g * (t - last) / 1000)%Q).
      { apply Qle_shift_div_l; [reflexivity | lra]. }
      lra.
    + assert (Hp : (0 <= (- g) * (t - last))%Q)
        by (apply Qmult_le_0_compat; lra).
      assert (Hq : (0 <= (- g) * (t - last) / 1000)%Q).
      { apply Qle_shift_div_l; [reflexivity | lra]. }
      assert (Hr : (g * (t - last) / 1000 == - ((- g) * (t - last) / 1000))%Q)
        by field.
      lra.
Qed.

(** X7.  A pending seek is left to the engine: while [externalSeek] is up,
    a frame requests no seek of its own, keeps the speed and the rewind
    flag, and feeds the update counter 0. *)
Theorem pending_seek_frame_requests_nothing (t : Q) s :
  externalSeek s = true ->
  goalUPS (loop t s) = goalUPS s
  /\ rewinding (loop t s) = rewinding s
  /\ the_match (loop t s) = match_compute 5 (the_match s)
  /\ snd (advance t s) = 0%Q
  /\ exists tail, calls (loop t s) = calls s ++ tail /\ last_seek tail = None.
Proof.
  intros E.
  destruct (loop_vars t s) as (G & R & _ & _ & _ & _ & Mt & _).
  destruct (loop_calls t s) as (tail & C & S & _).
  destruct (advance_seeking t s E) as (_ & _ & C').
  assert (A : fst (advance t s) = s \/ fst (advance t s) = set_externalSeek false s).
  { unfold advance. destruct (lastTime s); rewrite ?E; [| now left].
    destruct (_ =? _); [now right | now left]. }
  assert (D : snd (advance t s) = 0%Q).
  { unfold advance. destruct (lastTime s); rewrite ?E; [| reflexivity].
    now destruct (_ =? _). }
  rewrite C' in C.
  destruct A as [A | A]; rewrite A in G, R, Mt;
    (repeat split; try assumption; exists tail; now split).
Qed.

(** The speed after two rewind toggles. *)
Lemma rewind_twice_speed s :
  goalUPS (onToggleRewind (onToggleRewind s))
  = (if Qeq_bool (goalUPS s) (-100) then -100 else 10)%Q.
Proof.
  unfold onToggleRewind. cbn. now destruct (Qeq_bool (goalUPS s) (-100)).
Qed.

(** X8.  Two rewind toggles: they always restore the [rewinding] flag;
    they restore [goalUPS] exactly when it was 10 or -100, and from any
    other speed they end at 10. *)
Theorem rewind_twice s :
  rewinding (onToggleRewind (onToggleRewind s)) = rewinding s
  /\ ((goalUPS (onToggleRewind (onToggleRewind s)) == goalUPS s)%Q
      <-> (goalUPS s == 10)%Q \/ (goalUPS s == -100)%Q)
  /\ goalUPS (onToggleRewind (onToggleRewind s))
     = (if Qeq_bool (goalUPS s) (-100) then -100 else 10)%Q.
Proof.
  split; [unfold onToggleRewind; cbn; apply negb_involutive |].
  rewrite rewind_twice_speed. split; [| reflexivity].
  destruct (Qeq_bool (goalUPS s) (-100)) eqn:E.
  - apply Qeq_bool_iff in E. split; [now right | intros _; now symmetry].
  - apply Qeq_bool_false in E. split.
    + intros H. left. now symmetry.
    + intros [H | H]; [now symmetry | contradiction].
Qed.

(** The turn a timeline click asks the engine for. *)
Lemma timeline_mousedown_seek (x : Q) (w : positive) s :
  last_seek (calls (timeline_mousedown x w s))
  = Some (Qfloor (inject_Z (farthest_turn (the_match s)) * x / inject_Z (Z.pos w))).
Proof.
  unfold timeline_mousedown. cbn. now rewrite last_seek_app.
Qed.

(** X9.  Timeline clicks: on a match whose farthest turn is not negative,
    a click further to the right never asks for an earlier turn; a click
    at the left edge asks for turn 0 and a click at the full canvas width
    asks for the farthest turn. *)
Theorem timeline_click_monotone (x x' : Q) (w : positive) s :
  0 <= farthest_turn (the_match s) ->
  (x <= x')%Q ->
  (exists target target',
      last_seek (calls (timeline_mousedown x w s)) = Some target
      /\ last_seek (calls (timeline_mousedown x' w s)) = Some target'
      /\ target <= target')
  /\ last_seek (calls (timeline_mousedown 0 w s)) = Some 0
  /\ last_seek (calls (timeline_mousedown (inject_Z (Z.pos w)) w s))
     = Some (farthest_turn (the_match s)).
Proof.
  intros Hf Hx. rewrite !timeline_mousedown_seek.
  set (F := inject_Z (farthest_turn (the_match s))).
  set (W := inject_Z (Z.pos w)).
  assert (HW : (0 < W)%Q) by (unfold W, Qlt; cbn; lia).
  assert (HF : (0 <= F)%Q) by (unfold F, Qle; cbn; lia).
  split; [| split].
  - do 2 eexists. split; [reflexivity |]. split; [reflexivity |].
    apply Qfloor_resp_le. unfold Qdiv.
    apply Qmult_le_compat_r.
    + rewrite (Qmult_comm F x), (Qmult_comm F x').
      now apply Qmult_le_compat_r.
    + apply Qinv_le_0_compat. now apply Qlt_le_weak.
  - f_equal. assert (E : (F * 0 / W == inject_Z 0)%Q).
    { unfold Qdiv. rewrite Qmult_0_r, Qmult_0_l. reflexivity. }
    rewrite E. apply Qfloor_Z.
  - f_equal. assert (E : (F * W / W == F)%Q).
    { apply Qdiv_mult_l. intros H. rewrite H in HW. discriminate HW. }
    rewrite E. apply Qfloor_Z.
Qed.

End Frames.

(** X10.  [x | 0] rounds toward zero: for every number from [-2^31] up to
    but excluding [2^31], [x | 0] is [floor x] when [x] is not negative
    and [ceiling x] when [x] is not positive. *)
Theorem toInt32_rounds_toward_zero (x : Q) :
  (inject_Z (- 2 ^ 31) <= x)%Q ->
  (x < inject_Z (2 ^ 31))%Q ->
  ((0 <= x)%Q -> toInt32 x = Qfloor x)
  /\ ((x <= 0)%Q -> toInt32 x = Qceiling x).
Proof.
  intros Hlo Hhi. split; intros Hs.
  - now apply toInt32_floor.
  - unfold toInt32, Qceiling, Qfloor. destruct x as [n d].
    cbn [Qnum Qden Qopp].
    assert (Hn : n <= 0) by (unfold Qle in Hs; cbn in Hs; lia).
    assert (Hb : - 2 ^ 31 * Z.pos d <= n).
    { unfold Qle in Hlo. cbn [Qnum Qden inject_Z] in Hlo. lia. }
    replace n with (- (- n)) at 1 by lia.
    rewrite Z.quot_opp_l by lia.
    rewrite Z.quot_div_nonneg by lia.
    assert (H0 : 0 <= - n / Z.pos d) by (apply Z.div_pos; lia).
    assert (H1 : - n / Z.pos d <= 2 ^ 31).
    { apply Z.div_le_upper_bound; lia. }
    assert (Hc : - n / Z.pos d = 2 ^ 31 \/ - n / Z.pos d < 2 ^ 31) by lia.
    destruct Hc as [Hc | Hc].
    + rewrite Hc. reflexivity.
    + rewrite Z.mod_small by lia. lia.
Qed.

(** * The controls bar *)

(** The three speed tests of the toggles exclude one another. *)
Lemma speed_tests_exclusive (g : Q) :
  (Qeq_bool g 0 = true -> Qeq_bool g 300 = false /\ Qeq_bool g (-100) = false)
  /\ (Qeq_bool g 300 = true -> Qeq_bool g (-100) = false).
Proof.
  split.
  - intros H. apply Qeq_bool_iff in H. split; apply Qeq_bool_false; intros H';
      rewrite H in H'; discriminate H'.
  - intros H. apply Qeq_bool_iff in H. apply Qeq_bool_false. intros H'.
    rewrite H in H'. discriminate H'.
Qed.

Section BarFacts.

Context {M T : Type} {match_ops : MatchOps M} {tick_ops : TickCounterOps T}.
Implicit Types b : ControlsBar.Bar M T.

Import ControlsBar.

Ltac speed_cases b :=
  let E0 := fresh "E0" in
  let E3 := fresh "E3" in
  let Em := fresh "Em" in
  let X := fresh "X" in
  pose proof (speed_tests_exclusive (goalUPS (watch b))) as X;
  destruct (Qeq_bool (goalUPS (watch b)) 0) eqn:E0;
  destruct (Qeq_bool (goalUPS (watch b)) 300) eqn:E3;
  destruct (Qeq_bool (goalUPS (watch b)) (-100)) eqn:Em;
  try (destruct X as [X _]; destruct (X eq_refl); discriminate);
  try (destruct X as [_ X]; specialize (X eq_refl); discriminate).

(** Each method is checked on the finitely many combinations of the three
    speed tests, with the images read off the invariant. *)
Ltac bar_crush b :=
  let H1 := fresh "H" in
  let H2 := fresh "H" in
  let H3 := fresh "H" in
  let H4 := fresh "H" in
  let H5 := fresh "H" in
  let H6 := fresh "H" in
  let H7 := fresh "H" in
  intros (H1 & H2 & H3 & H4 & H5 & H6 & H7);
  rewrite H7 in H5, H6;
  unfold in_step, pause, forward, rewind,
         onTogglePause, onToggleForward, onToggleRewind;
  cbn; rewrite ?H7;
  revert H1 H2 H3 H4 H5 H6;
  speed_cases b; cbn; intros H1 H2 H3 H4 H5 H6;
  repeat (progress (cbn; rewrite ?H1, ?H2, ?H3, ?H4, ?H5, ?H6));
  repeat split;
  repeat (progress (cbn; rewrite ?H1, ?H2, ?H3, ?H4, ?H5, ?H6));
  reflexivity.

Lemma pause_in_step b : in_step b -> in_step (pause b).
Proof. bar_crush b. Qed.

Lemma forward_in_step b : in_step b -> in_step (forward b).
Proof. bar_crush b. Qed.

Lemma rewind_in_step b : in_step b -> in_step (rewind b).
Proof. bar_crush b. Qed.

(** Each method runs its callback on the loop variables. *)
Lemma watch_methods b :
  watch (pause b) = onTogglePause (watch b)
  /\ watch (forward b) = onToggleForward (watch b)
  /\ watch (rewind b) = onToggleRewind (watch b).
Proof.
  unfold pause, forward, rewind. cbn.
  destruct (is_none (playbackStart (imgs b))); repeat split.
Qed.

(** [in_step] reads the images, the speed and the flag only. *)
Lemma in_step_ext b b' :
  imgs b = imgs b' ->
  goalUPS (watch b) = goalUPS (watch b') ->
  rewinding (watch b) = rewinding (watch b') ->
  in_step b -> in_step b'.
Proof.
  unfold in_step. intros Hi Hg Hr. now rewrite Hi, Hg, Hr.
Qed.

(** [rewind_stops] is the test of the branch of [loop] that calls the
    bar: when it holds the [if] chain is [rewind] then [pause], and when it
    fails the chain leaves the speed and the flag alone. *)
Lemma rewind_stops_spec (t : Q) (s : State M T) :
  (rewind_stops s = true ->
   fst (advance t s) = Controls_pause (Controls_rewind s))
  /\ (rewind_stops s = false ->
      goalUPS (fst (advance t s)) = goalUPS s
      /\ rewinding (fst (advance t s)) = rewinding s).
Proof.
  unfold rewind_stops, advance. destruct (lastTime s) as [last |].
  - destruct (externalSeek s); cbn [negb andb].
    + split; [discriminate |]. intros _. now destruct (_ =? _).
    + destruct (rewinding s && (current_turn (the_match s) <=? 10)).
      * split; [reflexivity | discriminate].
      * split; [discriminate |]. intros _. now destruct (Qltb _ _).
  - split; [discriminate | auto].
Qed.

Lemma frame_in_step (t : Q) b : in_step b -> in_step (frame t b).
Proof.
  intros H. unfold frame.
  destruct (loop_vars t (watch b)) as (G & R & _).
  destruct (rewind_stops_spec t (watch b)) as [Hs Hn].
  destruct (rewind_stops (watch b)).
  - apply (in_step_ext (pause (rewind b))).
    + reflexivity.
    + cbn [watch]. rewrite G, (Hs eq_refl).
      destruct (watch_methods (rewind b)) as (-> & _).
      destruct (watch_methods b) as (_ & _ & ->). reflexivity.
    + cbn [watch]. rewrite R, (Hs eq_refl).
      destruct (watch_methods (rewind b)) as (-> & _).
      destruct (watch_methods b) as (_ & _ & ->). reflexivity.
    + now apply pause_in_step, rewind_in_step.
  - destruct (Hn eq_refl) as [G' R'].
    apply (in_step_ext b); cbn [imgs watch]; [reflexivity | | | exact H].
    + now rewrite G, G'.
    + now rewrite R, R'.
Qed.

(** Keys other than the four playback keys reach neither the speed, the
    flag nor the images. *)
Lemma keydown_other (k : Z) b :
  k <> 80 -> k <> 79 -> k <> 37 -> k <> 39 ->
  imgs (keydown k b) = imgs b
  /\ goalUPS (watch (keydown k b)) = goalUPS (watch b)
  /\ rewinding (watch (keydown k b)) = rewinding (watch b).
Proof.
  intros H80 H79 H37 H39. unfold keydown, onkeydown.
  repeat match goal with
         | |- context [match ?x with _ => _ end] => destruct x
         end;
    first [ now contradiction H80 | now contradiction H79
          | now contradiction H37 | now contradiction H39
          | repeat split ].
Qed.

Lemma keydown_in_step (k : Z) b : in_step b -> in_step (keydown k b).
Proof.
  intros H.
  destruct (Z.eq_dec k 80) as [-> | H80]; [now apply pause_in_step |].
  destruct (Z.eq_dec k 79) as [-> | H79];
    [apply (in_step_ext b); [reflexivity .. | exact H] |].
  destruct (Z.eq_dec k 37) as [-> | H37]; [now apply rewind_in_step |].
  destruct (Z.eq_dec k 39) as [-> | H39]; [now apply forward_in_step |].
  destruct (keydown_other k b H80 H79 H37 H39) as (I & G & R).
  now apply (in_step_ext b).
Qed.

Lemma bar_step_in_step (e : BarEvent) b : in_step b -> in_step (bar_step e b).
Proof.
  intros H. destruct e; cbn [bar_step].
  - now apply pause_in_step.
  - now apply forward_in_step.
  - now apply rewind_in_step.
  - apply (in_step_ext b); [reflexivity .. | exact H].
  - now apply keydown_in_step.
  - apply (in_step_ext b); [reflexivity .. | exact H].
  - now apply frame_in_step.
Qed.

Lemma bar_run_in_step (es : list BarEvent) b : in_step b -> in_step (bar_run es b).
Proof.
  revert b. induction es as [| e es IH]; intros b H; cbn.
  - exact H.
  - apply IH. now apply bar_step_in_step.
Qed.

(** X11.  The button images follow the playback state: starting from a
    match set up by [runMatch] with the buttons as [loadMatch] resets them,
    after any sequence of button clicks, key presses, timeline clicks and
    frames the play image is displayed exactly when the speed is 0 (and
    the pause image otherwise), the fast-forward image exactly when the
    speed is 300, and the rewind image exactly while [rewinding] holds;
    each button displays exactly one of its two images. *)
Theorem images_follow_playback (i : Images) (c : ConfigExt.Config) (m : M)
    (es : list BarEvent) :
  let b := bar_run es (mkBar (loadMatch_reset i) (runMatch c m)) in
  (is_none (playbackStart (imgs b)) = false <-> (goalUPS (watch b) == 0)%Q)
  /\ (is_none (seekForward (imgs b)) = false <-> (goalUPS (watch b) == 300)%Q)
  /\ (is_none (seekBackward (imgs b)) = false <-> rewinding (watch b) = true)
  /\ is_none (playbackPause (imgs b)) = negb (is_none (playbackStart (imgs b)))
  /\ is_none (skipForward (imgs b)) = negb (is_none (seekForward (imgs b)))
  /\ is_none (skipBackward (imgs b)) = negb (is_none (seekBackward (imgs b))).
Proof.
  cbv zeta.
  assert (H : in_step (bar_run es (mkBar (loadMatch_reset i) (runMatch c m)))).
  { apply bar_run_in_step. unfold in_step. cbn. repeat split. }
  destruct H as (H1 & H2 & H3 & H4 & H5 & H6 & _).
  rewrite H1, H2, H3, H4, H5, H6, <- !Qeq_bool_iff.
  destruct (Qeq_bool _ 0), (Qeq_bool _ 300), (rewinding _); cbn;
    repeat split; congruence.
Qed.

End BarFacts.

(** X12.  Progress bar: for a frame between 0 and a positive [maxFrame]
    and a canvas of non-negative width, the filled width lies between 0 and
    the canvas width, and it is the whole width at the last frame. *)
Theorem drawProgress_within_canvas (canvasWidth frame maxFrame : Q) :
  (0 <= canvasWidth)%Q ->
  (0 < maxFrame)%Q ->
  (0 <= frame)%Q ->
  (frame <= maxFrame)%Q ->
  (0 <= ControlsBar.drawProgress_width canvasWidth frame maxFrame)%Q
  /\ (ControlsBar.drawProgress_width canvasWidth frame maxFrame <= canvasWidth)%Q
  /\ (ControlsBar.drawProgress_width canvasWidth maxFrame maxFrame == canvasWidth)%Q.
Proof.
  intros Hc Hm Hf0 Hf1. unfold ControlsBar.drawProgress_width. split; [| split].
  - apply Qle_shift_div_l; [exact Hm |]. rewrite Qmult_0_l.
    now apply Qmult_le_0_compat.
  - apply Qle_shift_div_r; [exact Hm |].
    rewrite (Qmult_comm canvasWidth frame), (Qmult_comm canvasWidth maxFrame).
    now apply Qmult_le_compat_r.
  - apply Qdiv_mult_l. intros H. rewrite H in Hm. discriminate Hm.
Qed.

(** * The further properties on concrete runs *)

(** With the engine at turn 50 and the simulated time at 0 the drift is
    50: the frame stalls. *)
Lemma drift_stall_far_behind :
  interpGameTime far_behind = 0%Q
  /\ current_turn (the_match far_behind) = 50
  /\ interpGameTime (loop 16 far_behind) = interpGameTime far_behind
  /\ last_seek (calls (loop 16 far_behind)) = None.
Proof.
  split; [reflexivity |]. split; [reflexivity |].
  destruct (drift_stall 16 0 far_behind) as (_ & _ & I & _).
  - reflexivity.
  - reflexivity.
  - left. reflexivity.
  - vm_compute. discriminate.
  - split; [exact I | reflexivity].
Defined.

(** A fresh match has no previous frame. *)
Lemma first_frame_of_fresh_match :
  lastTime (sim_start 0 20) = None
  /\ lastTime (loop 0 (sim_start 0 20)) = Some 0%Q
  /\ interpGameTime (loop 0 (sim_start 0 20)) = 0%Q.
Proof.
  split; [reflexivity |].
  destruct (first_frame_only_records_time 0 (sim_start 0 20) eq_refl)
    as (L & _ & _ & I & _).
  split; [exact L | exact I].
Defined.

(** A paused match keeps its time over a frame one second later. *)
Lemma paused_frame_keeps_time_paused :
  goalUPS paused = 0%Q
  /\ (interpGameTime (loop 1016 paused) == interpGameTime paused)%Q.
Proof.
  split; [reflexivity |].
  apply (paused_frame_keeps_time 1016 paused). reflexivity.
Defined.

(** At speed 10 a frame 16 ms after the previous one does not move the
    time back. *)
Lemma time_follows_speed_sign_playing :
  goalUPS playing = 10%Q
  /\ (interpGameTime playing <= interpGameTime (loop 16 playing))%Q.
Proof.
  split; [reflexivity |].
  destruct (time_follows_speed_sign 16 playing) as [Hup _].
  - intros last L. injection L as <-. discriminate.
  - apply Hup. discriminate.
Defined.

(** While the seek to turn 50 is pending a frame asks the engine for
    nothing: the last seek in the history is still the user's. *)
Lemma pending_seek_frame_at_turn_50 :
  externalSeek seeking_50 = true
  /\ goalUPS (loop 16 seeking_50) = 10%Q
  /\ last_seek (calls (loop 16 seeking_50)) = Some 50.
Proof.
  split; [reflexivity |].
  destruct (pending_seek_frame_requests_nothing 16 seeking_50 eq_refl)
    as (G & _).
  split; [exact G | reflexivity].
Defined.

(** Clicks at a quarter and at half of a 400 pixel timeline of a match
    that is 100 turns long ask for turns 25 and 50. *)
Lemma timeline_clicks_at_100_and_200 :
  last_seek (calls (timeline_mousedown 100 400 playing)) = Some 25
  /\ last_seek (calls (timeline_mousedown 200 400 playing)) = Some 50
  /\ last_seek (calls (timeline_mousedown 400 400 playing)) = Some 100.
Proof.
  destruct (timeline_click_monotone 100 200 400 playing) as (_ & _ & Hend).
  - vm_compute. discriminate.
  - vm_compute. discriminate.
  - split; [reflexivity |]. split; [reflexivity | exact Hend].
Defined.

(** [-0.5 | 0] is 0, the ceiling of -0.5. *)
Lemma toInt32_of_minus_half :
  toInt32 (-0.5) = 0 /\ toInt32 (-0.5) = Qceiling (-0.5).
Proof.
  split; [reflexivity |].
  destruct (toInt32_rounds_toward_zero (-0.5)) as [_ Hneg].
  - vm_compute. discriminate.
  - vm_compute. reflexivity.
  - apply Hneg. vm_compute. discriminate.
Defined.

(** Turn 50 of 100 fills half of a 400 pixel canvas. *)
Lemma drawProgress_half_way :
  (ControlsBar.drawProgress_width 400 50 100 == 200)%Q
  /\ (ControlsBar.drawProgress_width 400 50 100 <= 400)%Q.
Proof.
  split; [reflexivity |].
  destruct (drawProgress_within_canvas 400 50 100) as (_ & Hle & _).
  - discriminate.
  - reflexivity.
  - discriminate.
  - discriminate.
  - exact Hle.
Defined.

(** * The map editor form *)

Section UnitMaps.

Import MapEditor.

Lemma map_get_none (id : Z) (m : UnitMap) :
  map_get id m = None <-> ~ In id (keys m).
Proof.
  induction m as [| [k u] m IH]; cbn.
  - tauto.
  - destruct (Z.eqb_spec k id) as [-> | Hne].
    + split; [discriminate | intros H; exfalso; apply H; now left].
    + rewrite IH. split.
      * intros H [E | E]; [congruence | contradiction].
      * intros H E. apply H. now right.
Qed.

Lemma map_get_in (id : Z) (u : MapUnit) (m : UnitMap) :
  map_get id m = Some u -> In (id, u) m.
Proof.
  induction m as [| [k v] m IH]; cbn; [discriminate |].
  destruct (Z.eqb_spec k id) as [-> | Hne].
  - intros [= ->]. now left.
  - intros H. right. now apply IH.
Qed.

Lemma in_map_get (id : Z) (u : MapUnit) (m : UnitMap) :
  List.NoDup (keys m) -> In (id, u) m -> map_get id m = Some u.
Proof.
  induction m as [| [k v] m IH]; cbn; [contradiction |].
  intros Hnd [E | E].
  - injection E as -> ->. now rewrite Z.eqb_refl.
  - apply List.NoDup_cons_iff in Hnd as [Hk Hnd].
    destruct (Z.eqb_spec k id) as [-> | Hne].
    + exfalso. apply Hk. change id with (fst (id, u)). now apply in_map.
    + now apply IH.
Qed.

Lemma map_has_true (id : Z) (m : UnitMap) :
  map_has id m = true <-> In id (keys m).
Proof.
  unfold map_has. destruct (map_get id m) eqn:E.
  - split; [intros _ | reflexivity].
    apply map_get_in in E. change id with (fst (id, m0)). now apply in_map.
  - apply map_get_none in E. split; [discriminate | contradiction].
Qed.

Lemma map_has_false (id : Z) (m : UnitMap) :
  map_has id m = false <-> ~ In id (keys m).
Proof.
  rewrite <- map_has_true. destruct (map_has id m); split; congruence.
Qed.

Lemma map_set_absent (id : Z) (u : MapUnit) (m : UnitMap) :
  ~ In id (keys m) -> map_set id u m = m ++ [(id, u)].
Proof.
  induction m as [| [k v] m IH]; cbn; [reflexivity |].
  intros H. destruct (Z.eqb_spec k id) as [-> | Hne].
  - exfalso. apply H. now left.
  - f_equal. apply IH. intros E. apply H. now right.
Qed.

Lemma keys_map_set (id : Z) (u : MapUnit) (m : UnitMap) :
  keys (map_set id u m) = if map_has id m then keys m else keys m ++ [id].
Proof.
  unfold keys, map_has. induction m as [| [k v] m IH]; cbn; [reflexivity |].
  destruct (Z.eqb_spec k id) as [-> | Hne]; cbn.
  - reflexivity.
  - rewrite IH. now destruct (map_get id m).
Qed.

Lemma map_get_set (k id : Z) (u : MapUnit) (m : UnitMap) :
  map_get k (map_set id u m) = if id =? k then Some u else map_get k m.
Proof.
  induction m as [| [j v] m IH]; cbn.
  - reflexivity.
  - destruct (Z.eqb_spec j id) as [-> | Hne]; cbn.
    + now destruct (id =? k).
    + rewrite IH. destruct (Z.eqb_spec j k) as [-> | Hjk].
      * destruct (Z.eqb_spec id k); [congruence | reflexivity].
      * reflexivity.
Qed.

Lemma NoDup_keys_map_set (id : Z) (u : MapUnit) (m : UnitMap) :
  List.NoDup (keys m) -> List.NoDup (keys (map_set id u m)).
Proof.
  intros H. rewrite keys_map_set. destruct (map_has id m) eqn:E; [exact H |].
  apply map_has_false in E. apply List.NoDup_app.
  - exact H.
  - apply List.NoDup_cons; [intros [] | apply List.NoDup_nil].
  - intros a Ha [<- | []]. contradiction.
Qed.

Lemma keys_map_delete_incl (id : Z) (m : UnitMap) :
  incl (keys (map_delete id m)) (keys m).
Proof.
  induction m as [| [k v] m IH]; cbn; [apply incl_refl |].
  destruct (k =? id); cbn.
  - apply incl_tl, incl_refl.
  - intros a [<- | Ha]; [now left | right; now apply IH].
Qed.

Lemma NoDup_keys_map_delete (id : Z) (m : UnitMap) :
  List.NoDup (keys m) -> List.NoDup (keys (map_delete id m)).
Proof.
  induction m as [| [k v] m IH]; cbn; [auto |].
  intros H. apply List.NoDup_cons_iff in H as [Hk H].
  destruct (k =? id); cbn; [exact H |].
  apply List.NoDup_cons_iff. split; [| now apply IH].
  intros E. apply Hk. now apply (keys_map_delete_incl id m).
Qed.

Lemma map_get_delete (k id : Z) (m : UnitMap) :
  List.NoDup (keys m) ->
  map_get k (map_delete id m) = if id =? k then None else map_get k m.
Proof.
  induction m as [| [j v] m IH]; cbn.
  - now destruct (id =? k).
  - intros H. apply List.NoDup_cons_iff in H as [Hj H].
    destruct (Z.eqb_spec j id) as [-> | Hne]; cbn.
    + destruct (Z.eqb_spec id k) as [-> | Hik]; [| reflexivity].
      now apply map_get_none.
    + rewrite (IH H). destruct (Z.eqb_spec j k) as [-> | Hjk].
      * destruct (Z.eqb_spec id k); [congruence | reflexivity].
      * reflexivity.
Qed.

End UnitMaps.

Section MapEditorFacts.

Import MapEditor.

Variables MIN_DIMENSION MAX_DIMENSION DELTA ARCHON_RADIUS : Q.
Variables MIN_NUMBER_OF_ARCHONS MAX_NUMBER_OF_ARCHONS : Z.
Variable new_Victor : num -> num -> Victor.
Variable distance : Victor -> Victor -> num.

(** On numbers [new Victor(a, b)] has coordinates [a] and [b]. *)
Hypothesis new_Victor_numbers :
  forall a b : Q, new_Victor (Some a) (Some b) = {| x := Some a; y := Some b |}.




(** With distinct keys [getSymmetricBodies] builds exactly [mirrors]. *)
Lemma getSymmetricBodies_fold (f : Form) (l acc : UnitMap) :
  List.NoDup (keys acc ++ keys l) ->
  fold_left
    (fun acc '(id, body) =>
       if negb (onSymmetricLine f (loc body))
       then map_set id (mirror new_Victor f body) acc
       else acc) l acc
  = acc ++ mirrors new_Victor f l.
Proof.
  revert acc. induction l as [| [id u] l IH]; intros acc H; cbn.
  - now rewrite app_nil_r.
  - assert (Hid : ~ In id (keys acc)).
    { intros E. apply List.NoDup_remove_2 in H. apply H.
      apply in_or_app. now left. }
    assert (Hl : List.NoDup (keys acc ++ keys l)).
    { now apply List.NoDup_remove_1 in H. }
    destruct (onSymmetricLine f (loc u)); cbn.
    + now apply IH.
    + rewrite map_set_absent by exact Hid. rewrite IH.
      * now rewrite <- app_assoc.
      * unfold keys in *. rewrite map_app, <- app_assoc. exact H.
Qed.

Lemma getSymmetricBodies_mirrors (f : Form) :
  List.NoDup (keys (originalBodies f)) ->
  getSymmetricBodies new_Victor f = mirrors new_Victor f (originalBodies f).
Proof.
  intros H. unfold getSymmetricBodies.
  now rewrite getSymmetricBodies_fold.
Qed.

Lemma keys_mirrors_incl (f : Form) (m : UnitMap) :
  incl (keys (mirrors new_Victor f m)) (keys m).
Proof.
  induction m as [| [id u] m IH]; cbn; [apply incl_refl |].
  destruct (onSymmetricLine f (loc u)); cbn.
  - now apply incl_tl.
  - intros a [<- | Ha]; [now left | right; now apply IH].
Qed.

Lemma NoDup_keys_mirrors (f : Form) (m : UnitMap) :
  List.NoDup (keys m) -> List.NoDup (keys (mirrors new_Victor f m)).
Proof.
  induction m as [| [id u] m IH]; cbn; [auto |].
  intros H. apply List.NoDup_cons_iff in H as [Hk H].
  destruct (onSymmetricLine f (loc u)); cbn; [now apply IH |].
  apply List.NoDup_cons_iff. split; [| now apply IH].
  intros E. apply Hk. now apply (keys_mirrors_incl f m).
Qed.

Lemma map_get_mirrors (f : Form) (m : UnitMap) (id : Z) :
  List.NoDup (keys m) ->
  map_get id (mirrors new_Victor f m)
  = match map_get id m with
    | Some u => if onSymmetricLine f (loc u) then None
                else Some (mirror new_Victor f u)
    | None => None
    end.
Proof.
  induction m as [| [k u] m IH]; cbn; [reflexivity |].
  intros H. apply List.NoDup_cons_iff in H as [Hk H].
  destruct (Z.eqb_spec k id) as [-> | Hne].
  - destruct (onSymmetricLine f (loc u)); cbn.
    + apply map_get_none. intros E. apply Hk. now apply (keys_mirrors_incl f m).
    + now rewrite Z.eqb_refl.
  - destruct (onSymmetricLine f (loc u)); cbn.
    + now apply IH.
    + destruct (Z.eqb_spec k id); [congruence | now apply IH].
Qed.

(** X14.  Symmetric units: when the original units have distinct ids,
    [render] stores under each id the mirror of the original unit of that
    id (same radius, type, bullets and body, mirrored location, no team)
    unless that unit lies on the line of symmetry, and nothing under any
    other id. *)
Theorem symmetric_bodies_lookup (f : Form) (id : Z) :
  List.NoDup (keys (originalBodies f)) ->
  map_get id (symmetricBodies (render new_Victor f))
  = match map_get id (originalBodies f) with
    | Some u =>
        if onSymmetricLine f (loc u) then None
        else Some {| loc := transformLoc new_Victor f (loc u);
                     radius := radius u;
                     type := type u;
                     containedBullets := containedBullets u;
                     containedBody := containedBody u;
                     teamID := None |}
    | None => None
    end.
Proof.
  intros H. unfold render. cbn [symmetricBodies set_store].
  rewrite getSymmetricBodies_mirrors by exact H.
  now rewrite map_get_mirrors.
Qed.

(** *** What the form keeps true *)

(** [orig_ok] reads the original units, the next id, the two labels and
    the selected body only. *)
Lemma orig_ok_ext (f g : Form) :
  originalBodies g = originalBodies f ->
  lastID g = lastID f ->
  idT g = idT f ->
  idA g = idA f ->
  bodiesT g = bodiesT f ->
  orig_ok f -> orig_ok g.
Proof.
  unfold orig_ok. intros -> -> -> -> ->. auto.
Qed.

Lemma store_ok_ext (f g : Form) :
  originalBodies g = originalBodies f ->
  symmetricBodies g = symmetricBodies f ->
  lastID g = lastID f ->
  idT g = idT f ->
  idA g = idA f ->
  bodiesT g = bodiesT f ->
  store_ok f -> store_ok g.
Proof.
  unfold store_ok. intros Ho Hs Hl Ht Ha Hb (H1 & H2 & H3).
  rewrite Ho, Hs. split; [now apply (orig_ok_ext f) | split; assumption].
Qed.

(** Replacing a label by an acceptable one, or the selected body by an
    option, keeps the form in order. *)
Lemma store_ok_labels (f g : Form) :
  originalBodies g = originalBodies f ->
  symmetricBodies g = symmetricBodies f ->
  lastID g = lastID f ->
  label_ok (lastID f) (idT g) ->
  label_ok (lastID f) (idA g) ->
  (forall b, bodiesT g = Some b -> In b body_options) ->
  store_ok f -> store_ok g.
Proof.
  unfold store_ok, orig_ok.
  intros Ho Hs Hl Ht Ha Hb ((H1 & H2 & H3 & _ & _ & _ & H7) & H8 & H9).
  rewrite Ho, Hs, Hl.
  split; [repeat (split; [assumption |]); assumption | split; assumption].
Qed.

Lemma render_ok (f : Form) : orig_ok f -> store_ok (render new_Victor f).
Proof.
  intros H. split; [| split].
  - now apply (orig_ok_ext f).
  - unfold render. cbn [symmetricBodies set_store].
    destruct H as (H & _). rewrite getSymmetricBodies_mirrors by exact H.
    now apply NoDup_keys_mirrors.
  - unfold render. cbn [symmetricBodies originalBodies set_store].
    destruct H as (H & _). rewrite getSymmetricBodies_mirrors by exact H.
    apply keys_mirrors_incl.
Qed.

Lemma in_map_set (k id : Z) (u v : MapUnit) (m : UnitMap) :
  In (k, v) (map_set id u m) -> (k, v) = (id, u) \/ In (k, v) m.
Proof.
  induction m as [| [j w] m IH]; cbn.
  - intros [E | []]. now left.
  - destruct (Z.eqb_spec j id) as [-> | Hne]; cbn.
    + intros [E | E]; [left; congruence | right; now right].
    + intros [E | E]; [right; now left |].
      destruct (IH E) as [E' | E']; [now left | right; now right].
Qed.

Lemma in_map_delete (k id : Z) (v : MapUnit) (m : UnitMap) :
  In (k, v) (map_delete id m) -> In (k, v) m.
Proof.
  induction m as [| [j w] m IH]; cbn; [auto |].
  destruct (j =? id); cbn.
  - intros E. now right.
  - intros [E | E]; [now left | right; now apply IH].
Qed.

Lemma label_ok_mono (n n' : Z) (l : option Z) :
  n <= n' -> label_ok n l -> label_ok n' l.
Proof. intros Hn H i E. specialize (H i E). lia. Qed.

Lemma setUnit_ok (id : Z) (u : MapUnit) (f : Form) :
  store_ok f ->
  1 <= id <= lastID f ->
  well_formed u ->
  store_ok (setUnit new_Victor id u f).
Proof.
  intros ((H1 & H2 & H3 & H4 & H5 & H6 & H7) & _) Hid Hu.
  unfold setUnit. apply render_ok. unfold orig_ok.
  cbn [originalBodies lastID idT idA bodiesT set_store].
  assert (Hn : lastID f
               <= (if negb (map_has id (originalBodies f))
                   then lastID f + 1 else lastID f))
    by (destruct (negb _); lia).
  split; [now apply NoDup_keys_map_set |].
  split; [lia |]. split; [| split; [| split; [| split]]].
  - intros k Hk. rewrite keys_map_set in Hk.
    destruct (map_has id (originalBodies f)) eqn:E; cbn [negb] in *.
    + now apply H3.
    + apply in_app_or in Hk as [Hk | [<- | []]]; [specialize (H3 k Hk) |]; lia.
  - now apply (label_ok_mono (lastID f)).
  - now apply (label_ok_mono (lastID f)).
  - exact H6.
  - intros k v Hin. apply in_map_set in Hin as [E | Hin].
    + now injection E as -> ->.
    + now apply (H7 k).
Qed.

Lemma deleteUnit_ok (id : Z) (f : Form) :
  store_ok f -> store_ok (deleteUnit new_Victor id f).
Proof.
  intros H. unfold deleteUnit. destruct (map_has id (originalBodies f)); [| exact H].
  destruct H as ((H1 & H2 & H3 & H4 & H5 & H6 & H7) & _).
  apply render_ok. unfold orig_ok.
  cbn [originalBodies lastID idT idA bodiesT set_store].
  split; [now apply NoDup_keys_map_delete |].
  split; [exact H2 |]. split; [| split; [| split; [| split]]]; try assumption.
  - intros k Hk. apply H3. now apply (keys_map_delete_incl id).
  - intros k v Hin. apply (H7 k). now apply (in_map_delete k id).
Qed.

Lemma select_body_option (body b : BodyType) :
  select_body body = Some b -> In b body_options.
Proof.
  unfold select_body. destruct (existsb _ _) eqn:E; [| discriminate].
  intros [= <-]. destruct body; cbn in E; try discriminate; cbn; tauto.
Qed.

Ltac keep_store f H :=
  apply (store_ok_ext f); [reflexivity .. | exact H].

Lemma addbutton_ok (f : Form) :
  store_ok f -> store_ok (addbutton_onclick new_Victor f).
Proof.
  intros H. pose proof H as ((_ & Hl & _ & Ht & Ha & Hb & _) & _).
  unfold addbutton_onclick.
  set (read := if tree_checked f then _ else _).
  destruct read as [[[[[[[id ux] uy] r] bullets] body] ty] |] eqn:Eread;
    [| exact H].
  destruct (isNaN ux || isNaN uy || isNaN r || strict_eq r (Some 0%Q)) eqn:G;
    [exact H |].
  apply orb_false_iff in G as [G Gr]. apply orb_false_iff in G as [G Gn].
  apply orb_false_iff in G as [Gx Gy].
  destruct ux as [a |]; [| discriminate]. destruct uy as [b |]; [| discriminate].
  destruct r as [q |]; [| discriminate].
  assert (Hid : label_ok (lastID f) id /\ (ty = ARCHON \/ ty = TREE_NEUTRAL)
                /\ ((ty = ARCHON /\ body = ARCHON /\ bullets = Some 0%Q)
                    \/ (ty = TREE_NEUTRAL /\ In body body_options))).
  { subst read. destruct (tree_checked f).
    - destruct (bodiesT f) as [b0 |] eqn:Eb; [| discriminate].
      injection Eread as <- _ _ _ _ <- <-.
      split; [exact Ht |]. split; [now right |]. right. split; [reflexivity |].
      now apply Hb.
    - injection Eread as <- _ _ _ <- <- <-.
      split; [exact Ha |]. split; [now left |]. left. auto. }
  destruct Hid as (Hlab & Hty & Hwf).
  set (unit := {| loc := new_Victor (Some a) (Some b); radius := Some q; type := ty;
                  containedBullets := bullets; containedBody := body;
                  teamID := None |}).
  assert (Hu : well_formed unit).
  { split; [| split].
    - exists a, b. apply new_Victor_numbers.
    - exists q. split; [reflexivity |]. now apply Qeq_bool_false.
    - exact Hwf. }
  destruct id as [i |].
  - apply setUnit_ok; [exact H | | exact Hu]. specialize (Hlab i eq_refl). lia.
  - assert (H1 : store_ok (setUnit new_Victor (lastID f) unit f)).
    { apply setUnit_ok; [exact H | lia | exact Hu]. }
    destruct (BodyType_eqb ty ARCHON).
    + apply (store_ok_ext (setUnit new_Victor (lastID f) unit f));
        [reflexivity .. | exact H1].
    + apply (store_ok_ext (setUnit new_Victor (lastID f) unit f));
        [reflexivity .. | exact H1].
Qed.

Lemma deletebutton_ok (f : Form) :
  store_ok f -> store_ok (deletebutton_onclick new_Victor f).
Proof.
  intros H. unfold deletebutton_onclick.
  destruct (if tree_checked f then idT f else idA f); [| exact H].
  now apply deleteUnit_ok.
Qed.

Lemma onclickUnit_ok (id : Z) (f : Form) :
  store_ok f -> store_ok (onclickUnit DELTA ARCHON_RADIUS new_Victor distance id f).
Proof.
  intros H. pose proof H as ((_ & _ & Hk & Ht & Ha & Hb & _) & _).
  unfold onclickUnit. destruct (map_get id (originalBodies f)) as [body |] eqn:E;
    [| exact H].
  assert (Hid : 1 <= id < lastID f).
  { apply Hk. apply map_get_in in E. change id with (fst (id, body)).
    now apply in_map. }
  destruct (BodyType_eqb (type body) ARCHON).
  - apply (store_ok_labels f); try reflexivity; try assumption.
    intros i [= <-]. exact Hid.
  - destruct (BodyType_eqb (type body) TREE_NEUTRAL); [| exact H].
    apply (store_ok_labels f); try reflexivity; try assumption.
    + intros i [= <-]. exact Hid.
    + intros b. cbn. apply select_body_option.
Qed.

Lemma onclickBlank_ok (p : Victor) (f : Form) :
  store_ok f -> store_ok (onclickBlank DELTA ARCHON_RADIUS new_Victor distance p f).
Proof.
  intros H. pose proof H as ((_ & _ & _ & Ht & Ha & Hb & _) & _).
  unfold onclickBlank. destruct (negb (tree_checked f)).
  - apply (store_ok_labels f); try reflexivity; try assumption.
    intros i. discriminate.
  - apply (store_ok_labels f); try reflexivity; try assumption.
    intros i. discriminate.
Qed.

Lemma keys_map_second {A : Type} (g : MapUnit -> MapUnit) (m : UnitMap) :
  keys (map (fun '(id, u) => (id, g u)) m) = keys m.
Proof.
  unfold keys. rewrite map_map. apply map_ext. now intros [id u].
Qed.

Lemma well_formed_set_team (t : Z) (u : MapUnit) :
  well_formed u -> well_formed (set_team t u).
Proof. intros H. exact H. Qed.

Lemma bodies_ok (f : Form) : store_ok f -> store_ok (fst (bodies f)).
Proof.
  intros ((H1 & H2 & H3 & H4 & H5 & H6 & H7) & H8 & H9).
  unfold bodies. cbn [fst]. unfold store_ok, orig_ok.
  cbn [originalBodies symmetricBodies lastID idT idA bodiesT set_store].
  rewrite !(keys_map_second (A := unit)).
  split; [| split; assumption].
  repeat (split; [assumption |]).
  intros k u Hin. apply in_map_iff in Hin as ([k' u'] & E & Hin).
  injection E as <- <-. apply well_formed_set_team. now apply (H7 k').
Qed.

Lemma step_ok (e : Event) (f : Form) :
  store_ok f ->
  store_ok (step MIN_DIMENSION MAX_DIMENSION DELTA ARCHON_RADIUS new_Victor distance e f).
Proof.
  intros H. destruct e; cbn [step].
  - destruct fld; keep_store f H.
  - destruct fld; cbn [onchange]; try keep_store f H.
    + apply render_ok. apply (orig_ok_ext f); try reflexivity. apply H.
    + apply render_ok. apply (orig_ok_ext f); try reflexivity. apply H.
  - apply render_ok. apply (orig_ok_ext f); try reflexivity. apply H.
  - destruct (nth_error body_options index) as [b |] eqn:E; [| exact H].
    apply (store_ok_labels f); try reflexivity; try apply H.
    intros b' [= <-]. now apply nth_error_In in E.
  - keep_store f H.
  - keep_store f H.
  - now apply addbutton_ok.
  - now apply deletebutton_ok.
  - now apply onclickUnit_ok.
  - now apply onclickBlank_ok.
  - unfold onkeydown.
    repeat match goal with
           | |- context [match ?k with _ => _ end] => destruct k; try exact H
           end;
      first [now apply deletebutton_ok | now apply addbutton_ok].
  - now apply bodies_ok.
Qed.

Lemma initial_ok : store_ok initial.
Proof.
  unfold store_ok, orig_ok, initial, label_ok. cbn.
  split; [| split; [constructor | intros a []]].
  split; [constructor |]. split; [lia |]. split; [intros k [] |].
  split; [discriminate |]. split; [discriminate |].
  split; [| intros k u []].
  intros b0 [= <-]. now left.
Qed.

Lemma run_ok (es : list Event) :
  store_ok (run MIN_DIMENSION MAX_DIMENSION DELTA ARCHON_RADIUS new_Victor distance
                es initial).
Proof.
  unfold run. generalize initial, initial_ok.
  induction es as [| e es IH]; intros f H; cbn.
  - exact H.
  - apply IH. now apply step_ok.
Qed.

(** X15.  Unit ids: in every form reached from the constructor's by any
    sequence of edits, selections, clicks and key presses, the original
    units have distinct ids, each between 1 and the next id [lastID]
    excluded, so no unit is stored under [lastID]; the symmetric units have
    distinct ids, all of them ids of original units. *)
Theorem unit_ids_fresh (es : list Event) :
  let f := run MIN_DIMENSION MAX_DIMENSION DELTA ARCHON_RADIUS new_Victor distance
               es initial in
  List.NoDup (keys (originalBodies f))
  /\ (forall k, In k (keys (originalBodies f)) -> 1 <= k < lastID f)
  /\ map_has (lastID f) (originalBodies f) = false
  /\ List.NoDup (keys (symmetricBodies f))
  /\ incl (keys (symmetricBodies f)) (keys (originalBodies f)).
Proof.
  cbv zeta. destruct (run_ok es) as ((H1 & _ & H3 & _) & H8 & H9).
  split; [exact H1 |]. split; [exact H3 |]. split; [| split; assumption].
  apply map_has_false. intros E. specialize (H3 _ E). lia.
Qed.

(** X16.  Stored units are well formed: in every form reached from the
    constructor's, each original unit has numeric coordinates and a
    numeric radius other than 0, and is either an archon with body
    [ARCHON] and 0 bullets or a neutral tree whose body is one of the six
    options of the body selector. *)
Theorem stored_units_well_formed (es : list Event) (k : Z) (u : MapUnit) :
  In (k, u)
     (originalBodies
        (run MIN_DIMENSION MAX_DIMENSION DELTA ARCHON_RADIUS new_Victor distance
             es initial)) ->
  (exists a b, loc u = {| x := Some a; y := Some b |})
  /\ (exists r, radius u = Some r /\ ~ (r == 0)%Q)
  /\ ((type u = ARCHON /\ containedBody u = ARCHON
       /\ containedBullets u = Some 0%Q)
      \/ (type u = TREE_NEUTRAL /\ In (containedBody u) body_options)).
Proof.
  intros Hin. destruct (run_ok es) as ((_ & _ & _ & _ & _ & _ & H7) & _).
  exact (H7 k u Hin).
Qed.

(** *** [bodies] *)

Lemma map_get_app (k : Z) (a b : UnitMap) :
  map_get k (a ++ b)
  = match map_get k a with Some u => Some u | None => map_get k b end.
Proof.
  induction a as [| [j v] a IH]; cbn; [reflexivity |].
  now destruct (j =? k).
Qed.

(** Entering the units of a list under fresh keys appends them. *)
Lemma renumber_fold (g : Z -> Z) (l acc : UnitMap) :
  List.NoDup (keys acc ++ map g (keys l)) ->
  fold_left (fun acc '(id, u) => map_set (g id) u acc) l acc
  = acc ++ map (fun '(id, u) => (g id, u)) l.
Proof.
  revert acc. induction l as [| [id u] l IH]; intros acc H; cbn.
  - now rewrite app_nil_r.
  - cbn in H.
    assert (Hid : ~ In (g id) (keys acc)).
    { intros E. apply List.NoDup_remove_2 in H. apply H.
      apply in_or_app. now left. }
    rewrite map_set_absent by exact Hid. rewrite IH.
    + now rewrite <- app_assoc.
    + unfold keys in *. rewrite map_app, <- app_assoc. exact H.
Qed.

Lemma map_get_renumbered (g : Z -> Z) (h : MapUnit -> MapUnit) (m : UnitMap) (id : Z) :
  (forall a b, g a = g b -> a = b) ->
  map_get (g id) (map (fun '(k, u) => (g k, h u)) m) = option_map h (map_get id m).
Proof.
  intros Hg. induction m as [| [k u] m IH]; cbn; [reflexivity |].
  destruct (Z.eqb_spec k id) as [-> | Hne].
  - now rewrite Z.eqb_refl.
  - destruct (Z.eqb_spec (g k) (g id)) as [E | _]; [| exact IH].
    apply Hg in E. contradiction.
Qed.

Lemma map_get_other_parity (g g' : Z -> Z) (h : MapUnit -> MapUnit) (m : UnitMap)
    (id : Z) :
  (forall a, g' a <> g id) ->
  map_get (g id) (map (fun '(k, u) => (g' k, h u)) m) = None.
Proof.
  intros Hg. induction m as [| [k u] m IH]; cbn; [reflexivity |].
  destruct (Z.eqb_spec (g' k) (g id)) as [E | _]; [| exact IH].
  now apply Hg in E.
Qed.

Lemma bodies_list (f : Form) :
  List.NoDup (keys (originalBodies f)) ->
  List.NoDup (keys (symmetricBodies f)) ->
  snd (bodies f)
  = map (fun '(id, u) => (id * 2, set_team 1 u)) (originalBodies f)
    ++ map (fun '(id, u) => (id * 2 + 1, set_team 2 u)) (symmetricBodies f).
Proof.
  intros Ho Hs. unfold bodies. cbn [snd].
  assert (Hko : List.NoDup (map (fun id => id * 2) (keys (originalBodies f)))).
  { apply Finite.Injective_map_NoDup; [| exact Ho]. intros a b E. lia. }
  assert (Hks : List.NoDup (map (fun id => id * 2 + 1) (keys (symmetricBodies f)))).
  { apply Finite.Injective_map_NoDup; [| exact Hs]. intros a b E. lia. }
  rewrite (renumber_fold (fun id => id * 2)).
  - cbn [app]. rewrite (renumber_fold (fun id => id * 2 + 1)).
    + rewrite !map_map. f_equal; apply map_ext; now intros [id u].
    + unfold keys. rewrite !map_map.
      rewrite (map_ext _ (fun p => fst p * 2)) by now intros [id u].
      rewrite (map_ext (fun x : Z * MapUnit => fst (let '(id, u) := x in (id, set_team 2 u)) * 2 + 1)
                       (fun p => fst p * 2 + 1)) by now intros [id u].
      apply List.NoDup_app.
      * unfold keys in Hko. now rewrite map_map in Hko.
      * unfold keys in Hks. now rewrite map_map in Hks.
      * intros a Ha Hb. apply in_map_iff in Ha as (p1 & <- & _).
        apply in_map_iff in Hb as (p2 & E & _). lia.
  - cbn [keys map app]. unfold keys. rewrite !map_map.
    rewrite (map_ext _ (fun p => fst p * 2)) by now intros [id u].
    unfold keys in Hko. now rewrite map_map in Hko.
Qed.

(** X17.  Numbering of the exported units: when the original units have
    distinct ids and so have the symmetric ones, [bodies] enters the
    original unit of id [i] under [2 * i] and the symmetric unit of id [i]
    under [2 * i + 1], and nothing else, so that no unit hides another; an
    archon is tagged with team 1 among the originals and team 2 among the
    symmetric units, and every other unit is entered as it is. *)
Theorem bodies_numbering (f : Form) :
  List.NoDup (keys (originalBodies f)) ->
  List.NoDup (keys (symmetricBodies f)) ->
  let m := snd (bodies f) in
  (forall id, map_get (id * 2) m = option_map (set_team 1) (map_get id (originalBodies f)))
  /\ (forall id, map_get (id * 2 + 1) m
                 = option_map (set_team 2) (map_get id (symmetricBodies f)))
  /\ length m = (length (originalBodies f) + length (symmetricBodies f))%nat
  /\ (forall t u, type u = ARCHON -> teamID (set_team t u) = Some t)
  /\ (forall t u, type u <> ARCHON -> set_team t u = u).
Proof.
  intros Ho Hs m. subst m. rewrite (bodies_list f Ho Hs).
  split; [| split; [| split; [| split]]].
  - intros id. rewrite map_get_app.
    rewrite (map_get_renumbered (fun k => k * 2) (set_team 1)) by (intros; lia).
    destruct (map_get id (originalBodies f)); [reflexivity |]. cbn [option_map].
    apply (map_get_other_parity (fun k => k * 2) (fun k => k * 2 + 1) (set_team 2)).
    intros a. lia.
  - intros id. rewrite map_get_app.
    rewrite (map_get_other_parity (fun k => k * 2 + 1) (fun k => k * 2) (set_team 1))
      by (intros a; lia).
    apply (map_get_renumbered (fun k => k * 2 + 1) (set_team 2)). intros; lia.
  - now rewrite length_app, !length_map.
  - intros t u E. unfold set_team. cbn. now rewrite E.
  - intros t u E. unfold set_team. destruct u as [l r ty cb cbody tid]. cbn in *.
    destruct ty; cbn; try reflexivity. contradiction.
Qed.

(** *** [getMaxRadius] *)

Lemma fold_min_nan (l : list num) : fold_left Math_min l None = None.
Proof. induction l as [| c l IH]; cbn; [reflexivity | exact IH]. Qed.

(** A running [Math.min] that ends on a number started on a number, met
    numbers only, and ended on their greatest lower bound. *)
Lemma fold_min_number (l : list num) (s r : Q) :
  fold_left Math_min l (Some s) = Some r ->
  (r <= s)%Q
  /\ (forall c, In c l -> exists q, c = Some q /\ (r <= q)%Q)
  /\ (forall r' : Q,
        (r' <= s)%Q ->
        (forall c, In c l -> exists q, c = Some q /\ (r' <= q)%Q) ->
        (r' <= r)%Q).
Proof.
  revert s. induction l as [| c l IH]; intros s H; cbn in H.
  - injection H as <-. split; [apply Qle_refl |]. split; [intros c [] | auto].
  - destruct c as [q |]; cbn in H; [| now rewrite fold_min_nan in H].
    destruct (IH _ H) as (H1 & H2 & H3).
    split; [| split].
    + apply (Qle_trans _ _ _ H1), Q.le_min_l.
    + intros c [<- | Hc]; [| now apply H2].
      exists q. split; [reflexivity |]. apply (Qle_trans _ _ _ H1), Q.le_min_r.
    + intros r' Hs Hall. apply H3.
      * apply Q.min_glb; [exact Hs |].
        destruct (Hall (Some q) (or_introl eq_refl)) as (q' & [= <-] & Hq).
        exact Hq.
      * intros c Hc. apply Hall. now right.
Qed.

(** A running [Math.min] ends on [NaN] exactly when it started on [NaN] or
    met one. *)
Lemma fold_min_is_nan (l : list num) (start : num) :
  fold_left Math_min l start = None <-> start = None \/ In None l.
Proof.
  revert start. induction l as [| c l IH]; intros start; cbn.
  - split; [now left | intros [H | []]; exact H].
  - rewrite IH. split.
    + intros [H | H]; [| right; now right].
      destruct start as [s |], c as [q |]; cbn in H; try discriminate; auto.
    + intros [-> | [-> | H]].
      * now left.
      * left. now destruct start.
      * now right.
Qed.

Lemma min_clearance_fold (p : Victor) (ign : Z) (m : UnitMap) (start : num) :
  min_clearance distance p ign m start
  = fold_left Math_min
      (map (fun '(_, body) => nsub (distance p (loc body)) (radius body))
           (List.filter (fun '(id, _) => negb (id =? ign)) m))
      start.
Proof.
  unfold min_clearance. revert start.
  induction m as [| [id u] m IH]; intros start; cbn; [reflexivity |].
  destruct (negb (id =? ign)); cbn; apply IH.
Qed.

(** The value [getMaxRadius] holds before [DELTA] is taken off: the
    running minimum of the clearances. *)
Lemma getMaxRadius_min (f : Form) (px py : num) (ignoreID : option Z) :
  getMaxRadius DELTA new_Victor distance f px py ignoreID false
  = Math_max (Some 0%Q)
      (nsub (fold_left Math_min (tl (clearances new_Victor distance f px py (ignored ignoreID))) px)
            (Some DELTA)).
Proof.
  unfold getMaxRadius, clearances, ignored. cbn [tl app fold_left].
  rewrite !min_clearance_fold, List.filter_app, map_app, fold_left_app.
  reflexivity.
Qed.

(** X18.  Largest free radius: when [getMaxRadius] (not for an archon)
    returns a number, every clearance (to the four walls and to the rim of
    every unit other than the ignored one) is a number; the result is not
    negative; if it is positive the result plus [DELTA] fits within every
    clearance; and no radius that fits with [DELTA] to spare within every
    clearance is larger than the result.  It returns [NaN] exactly when
    one of the clearances is [NaN]. *)
Theorem getMaxRadius_contract (f : Form) (px py : num) (ignoreID : option Z) :
  let cs := clearances new_Victor distance f px py (ignored ignoreID) in
  match getMaxRadius DELTA new_Victor distance f px py ignoreID false with
  | Some r =>
      (0 <= r)%Q
      /\ (forall c, In c cs -> exists q, c = Some q /\ ((0 < r)%Q -> (r + DELTA <= q)%Q))
      /\ (forall r' : Q,
            (forall c, In c cs -> exists q, c = Some q /\ (r' + DELTA <= q)%Q) ->
            (r' <= r)%Q)
  | None => In None cs
  end.
Proof.
  intros cs. rewrite getMaxRadius_min. fold cs.
  assert (Hcs : cs = px :: tl cs) by reflexivity.
  destruct (fold_left Math_min (tl cs) px) as [m |] eqn:E.
  - cbn [nsub Math_max lift2].
    destruct px as [s |]; [| now rewrite fold_min_nan in E].
    destruct (fold_min_number _ _ _ E) as (H1 & H2 & H3).
    assert (Hall : forall c, In c cs -> exists q, c = Some q /\ (m <= q)%Q).
    { intros c Hc. rewrite Hcs in Hc. destruct Hc as [<- | Hc]; [| now apply H2].
      exists s. now split. }
    split; [apply Q.le_max_l |]. split.
    + intros c Hc. destruct (Hall c Hc) as (q & -> & Hq).
      exists q. split; [reflexivity |]. intros Hpos.
      assert (Hm : (Qmax 0 (m - DELTA) == m - DELTA)%Q).
      { apply Q.max_r. destruct (Qlt_le_dec 0 (m - DELTA)) as [L | L];
          [now apply Qlt_le_weak |].
        exfalso. rewrite (Q.max_l _ _ L) in Hpos. discriminate Hpos. }
      rewrite Hm. lra.
    + intros r' Hfit.
      assert (Hr : (r' + DELTA <= m)%Q).
      { apply H3.
        - destruct (Hfit (Some s)) as (q & [= <-] & Hq); [rewrite Hcs; now left |].
          exact Hq.
        - intros c Hc. apply Hfit. rewrite Hcs. now right. }
      apply (Qle_trans _ (m - DELTA)); [lra | apply Q.le_max_r].
  - cbn [nsub Math_max lift2]. apply fold_min_is_nan in E.
    rewrite Hcs. destruct E as [-> | E]; [now left | now right].
Qed.

(** X19.  Radius offered to an archon: [getMaxRadius] for an archon
    returns 0 or 2, and it returns 2 exactly when the point is off the
    line of symmetry and the largest free radius there is a number that
    is at least 2. *)
Theorem getMaxRadius_archon (f : Form) (px py : num) (ignoreID : option Z) :
  let r := getMaxRadius DELTA new_Victor distance f px py ignoreID true in
  (r = Some 0%Q \/ r = Some 2%Q)
  /\ (r = Some 2%Q <->
      onSymmetricLine f (new_Victor px py) = false
      /\ exists q, getMaxRadius DELTA new_Victor distance f px py ignoreID false = Some q
                   /\ (2 <= q)%Q).
Proof.
  cbv zeta. unfold getMaxRadius.
  set (m := Math_max (Some 0%Q) _).
  destruct (onSymmetricLine f (new_Victor px py)).
  - split; [now left |]. split; [discriminate | intros [H _]; discriminate].
  - unfold nge, nle, test2. destruct m as [q |].
    + destruct (Qle_bool 2 q) eqn:E.
      * split; [now right |]. split; [| reflexivity].
        intros _. split; [reflexivity |]. exists q. split; [reflexivity |].
        now apply Qle_bool_iff.
      * split; [now left |]. split; [discriminate |].
        intros (_ & q' & [= <-] & Hq). apply Qle_bool_iff in Hq. congruence.
    + split; [now left |]. split; [discriminate |].
      intros (_ & q' & Hq & _). discriminate.
Qed.

(** *** [isValid] *)

Lemma snoc_not_nil {A : Type} (l : list A) (a : A) : l ++ [a] <> [].
Proof. now destruct l. Qed.

Lemma off_map_fold_nil (f : Form) (l : UnitMap) (errors : list MapError) :
  fold_left
    (fun acc '(id, u) => if off_map f u then acc ++ [OffMap id] else acc) l errors
  = []
  <-> errors = [] /\ forall id u, In (id, u) l -> off_map f u = false.
Proof.
  revert errors. induction l as [| [id u] l IH]; intros errors; cbn.
  - split; [intros ->; split; [reflexivity | intros ? ? []] | now intros [-> _]].
  - rewrite IH. destruct (off_map f u) eqn:E; split.
    + intros [H _]. now apply snoc_not_nil in H.
    + intros [_ H]. specialize (H id u (or_introl eq_refl)). congruence.
    + intros [-> H]. split; [reflexivity |].
      intros k v [[= <- <-] | Hin]; [exact E | now apply (H k)].
    + intros [-> H]. split; [reflexivity |]. intros k v Hin. apply (H k). now right.
Qed.

Lemma overlap_inner_nil (ia : Z) (ua : MapUnit) (l : UnitMap) (acc : list MapError) :
  fold_left
    (fun acc' '(ib, ub) =>
       if overlapping distance ua ub then acc' ++ [Overlapping ia ib] else acc')
    l acc
  = []
  <-> acc = [] /\ forall ib ub, In (ib, ub) l -> overlapping distance ua ub = false.
Proof.
  revert acc. induction l as [| [ib ub] l IH]; intros acc; cbn.
  - split; [intros ->; split; [reflexivity | intros ? ? []] | now intros [-> _]].
  - rewrite IH. destruct (overlapping distance ua ub) eqn:E; split.
    + intros [H _]. now apply snoc_not_nil in H.
    + intros [_ H]. specialize (H ib ub (or_introl eq_refl)). congruence.
    + intros [-> H]. split; [reflexivity |].
      intros k v [[= <- <-] | Hin]; [exact E | now apply (H k)].
    + intros [-> H]. split; [reflexivity |]. intros k v Hin. apply (H k). now right.
Qed.

Lemma overlap_outer_nil (sym l : UnitMap) (errors : list MapError) :
  fold_left
    (fun acc '(ia, ua) =>
       fold_left
         (fun acc' '(ib, ub) =>
            if overlapping distance ua ub then acc' ++ [Overlapping ia ib] else acc')
         sym acc)
    l errors
  = []
  <-> errors = []
      /\ forall ia ua ib ub,
           In (ia, ua) l -> In (ib, ub) sym -> overlapping distance ua ub = false.
Proof.
  revert errors. induction l as [| [ia ua] l IH]; intros errors; cbn.
  - split; [intros ->; split; [reflexivity | intros ? ? ? ? []] | now intros [-> _]].
  - rewrite IH, overlap_inner_nil. split.
    + intros [[-> H1] H2]. split; [reflexivity |].
      intros ka va kb vb [[= <- <-] | Hin] Hs; [now apply (H1 kb) | now apply (H2 ka va kb)].
    + intros [-> H]. split; [split; [reflexivity |] |].
      * intros kb vb Hs. apply (H ia ua kb); [now left | exact Hs].
      * intros ka va kb vb Hin Hs. apply (H ka va kb); [now right | exact Hs].
Qed.

Lemma dimension_bad_false (d : num) :
  dimension_bad MIN_DIMENSION MAX_DIMENSION d = false
  <-> exists q, d = Some q /\ (MIN_DIMENSION <= q)%Q /\ (q <= MAX_DIMENSION)%Q.
Proof.
  unfold dimension_bad, ngt, nlt, test2. destruct d as [q |]; cbn.
  - rewrite orb_false_iff, !Qltb_ge. split.
    + intros [H1 H2]. exists q. auto.
    + intros (q' & [= <-] & H1 & H2). auto.
  - split; [discriminate | intros (q & E & _); discriminate].
Qed.

(** X20.  Validity of a map: [isValid] returns true exactly when the width
    and the height are numbers within the allowed dimensions, the number
    of original archons is within the allowed range, no original unit is
    off the map, and no original unit overlaps a symmetric unit. *)
Theorem isValid_iff (f : Form) :
  isValid MIN_DIMENSION MAX_DIMENSION MIN_NUMBER_OF_ARCHONS MAX_NUMBER_OF_ARCHONS
          distance f = true
  <-> (exists w, width f = Some w /\ (MIN_DIMENSION <= w)%Q /\ (w <= MAX_DIMENSION)%Q)
      /\ (exists h, height f = Some h /\ (MIN_DIMENSION <= h)%Q /\ (h <= MAX_DIMENSION)%Q)
      /\ MIN_NUMBER_OF_ARCHONS <= archonCount (originalBodies f) <= MAX_NUMBER_OF_ARCHONS
      /\ (forall id u, In (id, u) (originalBodies f) -> off_map f u = false)
      /\ (forall ia ua ib ub,
            In (ia, ua) (originalBodies f) -> In (ib, ub) (symmetricBodies f) ->
            overlapping distance ua ub = false).
Proof.
  unfold isValid.
  set (errs := validation_errors _ _ _ _ _ f).
  assert (E : errs = [] <-> (match errs with [] => true | _ => false end) = true).
  { destruct errs; split; congruence. }
  rewrite <- E. subst errs. unfold validation_errors.
  rewrite overlap_outer_nil, off_map_fold_nil, <- !dimension_bad_false.
  set (n := archonCount (originalBodies f)).
  destruct (dimension_bad MIN_DIMENSION MAX_DIMENSION (width f));
    destruct (dimension_bad MIN_DIMENSION MAX_DIMENSION (height f));
    destruct (n <? MIN_NUMBER_OF_ARCHONS) eqn:E1;
    destruct (MAX_NUMBER_OF_ARCHONS <? n) eqn:E2;
    cbn [orb app];
    rewrite ?Z.ltb_lt, ?Z.ltb_ge in E1, E2;
    (split;
     [ intros [[H1 H2] H3]; try discriminate H1;
       repeat split; first [assumption | reflexivity | lia]
     | intros (H1 & H2 & H3 & H4 & H5);
       first [discriminate H1 | discriminate H2 | lia
             | repeat split; assumption ] ]).
Qed.

(** *** Handlers *)

Lemma clamp_dimension (p : Q) :
  (MIN_DIMENSION <= MAX_DIMENSION)%Q ->
  (MIN_DIMENSION <= Qmin (Qmax p MIN_DIMENSION) MAX_DIMENSION)%Q
  /\ (Qmin (Qmax p MIN_DIMENSION) MAX_DIMENSION <= MAX_DIMENSION)%Q
  /\ ((MIN_DIMENSION <= p)%Q -> (p <= MAX_DIMENSION)%Q ->
      (Qmin (Qmax p MIN_DIMENSION) MAX_DIMENSION == p)%Q).
Proof.
  intros H. split; [| split].
  - apply Q.min_glb; [apply Q.le_max_r | exact H].
  - apply Q.le_min_r.
  - intros H1 H2. rewrite (Q.max_l _ _ H1). now apply Q.min_l.
Qed.

(** X21.  Dimension fields: when the smallest allowed dimension is not
    above the largest, the [onchange] handler of the width field leaves a
    number in it: 50 when the text typed was no number, and otherwise the
    typed number brought into the allowed range (unchanged when it was
    already within); the height field's handler does the same for the
    height. *)
Theorem dimension_onchange_in_range (f : Form) :
  (MIN_DIMENSION <= MAX_DIMENSION)%Q ->
  (exists w,
      width (widthGM_onchange MIN_DIMENSION MAX_DIMENSION new_Victor f) = Some w
      /\ (widthGM f = None -> w = 50%Q)
      /\ (forall p, widthGM f = Some p ->
                    (MIN_DIMENSION <= w)%Q /\ (w <= MAX_DIMENSION)%Q
                    /\ ((MIN_DIMENSION <= p)%Q -> (p <= MAX_DIMENSION)%Q -> (w == p)%Q)))
  /\ (exists h,
         height (heightGM_onchange MIN_DIMENSION MAX_DIMENSION new_Victor f) = Some h
         /\ (heightGM f = None -> h = 50%Q)
         /\ (forall p, heightGM f = Some p ->
                       (MIN_DIMENSION <= h)%Q /\ (h <= MAX_DIMENSION)%Q
                       /\ ((MIN_DIMENSION <= p)%Q -> (p <= MAX_DIMENSION)%Q -> (h == p)%Q))).
Proof.
  intros H. split.
  - unfold widthGM_onchange, setCanvasDimensions, render, width. cbn.
    destruct (widthGM f) as [p |]; cbn.
    + eexists. split; [reflexivity |]. split; [discriminate |].
      intros p' [= <-]. now apply clamp_dimension.
    + eexists. split; [reflexivity |]. split; [reflexivity | discriminate].
  - unfold heightGM_onchange, setCanvasDimensions, render, height. cbn.
    destruct (heightGM f) as [p |]; cbn.
    + eexists. split; [reflexivity |]. split; [discriminate |].
      intros p' [= <-]. now apply clamp_dimension.
    + eexists. split; [reflexivity |]. split; [reflexivity | discriminate].
Qed.

Lemma clamp_coordinate (field limit : num) :
  match Math_min (Math_max field (Some 0%Q)) limit with
  | Some v =>
      exists p w, field = Some p /\ limit = Some w
                  /\ (v <= w)%Q
                  /\ ((0 <= w)%Q -> (0 <= v)%Q)
                  /\ ((0 <= p)%Q -> (p <= w)%Q -> (v == p)%Q)
  | None => field = None \/ limit = None
  end.
Proof.
  destruct field as [p |], limit as [w |]; cbn; auto.
  exists p, w. split; [reflexivity |]. split; [reflexivity |].
  split; [apply Q.le_min_r |]. split.
  - intros Hw. apply Q.min_glb; [apply Q.le_max_r | exact Hw].
  - intros H1 H2. rewrite (Q.max_l _ _ H1). now apply Q.min_l.
Qed.

(** X22.  Tree coordinates: the [onchange] handler of the tree's X field
    leaves it empty exactly when the text typed or the width is no number;
    otherwise it leaves a number not above the width, not below 0 when the
    width is not negative, and equal to the typed one when that was
    already between 0 and the width.  The tree's Y field behaves the same
    way with the height. *)
Theorem tree_coordinates_clamped (f : Form) :
  match xT (xT_onchange f) with
  | Some v =>
      exists p w, xT f = Some p /\ width f = Some w
                  /\ (v <= w)%Q
                  /\ ((0 <= w)%Q -> (0 <= v)%Q)
                  /\ ((0 <= p)%Q -> (p <= w)%Q -> (v == p)%Q)
  | None => xT f = None \/ width f = None
  end
  /\ match yT (yT_onchange f) with
     | Some v =>
         exists p h, yT f = Some p /\ height f = Some h
                     /\ (v <= h)%Q
                     /\ ((0 <= h)%Q -> (0 <= v)%Q)
                     /\ ((0 <= p)%Q -> (p <= h)%Q -> (v == p)%Q)
     | None => yT f = None \/ height f = None
     end.
Proof.
  split.
  - exact (clamp_coordinate (xT f) (width f)).
  - exact (clamp_coordinate (yT f) (height f)).
Qed.

(** X23.  Adding a tree: with the tree form shown, an empty id label, a
    body selected, numbers in the X, Y and radius fields, a radius other
    than 0 and no unit stored under the next id, Add/Update appends the
    new tree under the next id after the existing units, moves the next
    id up by one, and empties the X and Y fields. *)
Theorem add_new_tree (f : Form) (a b r : Q) (body : BodyType) :
  tree_checked f = true ->
  idT f = None ->
  bodiesT f = Some body ->
  xT f = Some a ->
  yT f = Some b ->
  radiusT f = Some r ->
  ~ (r == 0)%Q ->
  map_has (lastID f) (originalBodies f) = false ->
  let f' := addbutton_onclick new_Victor f in
  originalBodies f'
  = originalBodies f
    ++ [(lastID f,
         {| loc := {| x := Some a; y := Some b |};
            radius := Some r;
            type := TREE_NEUTRAL;
            containedBullets := bulletsT f;
            containedBody := body;
            teamID := None |})]
  /\ lastID f' = lastID f + 1
  /\ idT f' = None /\ xT f' = None /\ yT f' = None /\ radiusT f' = Some r.
Proof.
  intros Ht Hi Hb Hx Hy Hr Hr0 Hfresh. cbv zeta.
  unfold addbutton_onclick. rewrite Ht, Hi, Hb, Hx, Hy, Hr. cbn [isNaN orb].
  unfold strict_eq, test2. apply Qeq_bool_false in Hr0. rewrite Hr0.
  cbn [BodyType_eqb]. unfold setUnit. rewrite Hfresh. cbn.
  rewrite map_set_absent by now apply map_has_false.
  rewrite new_Victor_numbers, Hi, Hr. repeat split.
Qed.

(** X24.  Rejected input: when one of the X, Y and radius fields of the
    form shown holds no number, or the radius is 0, Add/Update changes
    nothing. *)
Theorem add_rejects_invalid_input (f : Form) :
  (let '(ux, uy, r) := if tree_checked f
                       then (xT f, yT f, radiusT f)
                       else (xA f, yA f, radiusA f) in
   isNaN ux || isNaN uy || isNaN r || strict_eq r (Some 0%Q)) = true ->
  addbutton_onclick new_Victor f = f.
Proof.
  unfold addbutton_onclick. destruct (tree_checked f).
  - intros H. destruct (bodiesT f); [| reflexivity]. now rewrite H.
  - intros H. now rewrite H.
Qed.

(** X25.  Updating a unit: with the tree form shown and the id label
    holding the id of an existing unit, Add/Update (on valid input)
    replaces that unit where it stands: the ids and their order are
    unchanged, the next id is unchanged, the unit under the label's id is
    the one described by the form, and every other unit is as before. *)
Theorem update_existing_tree (f : Form) (i : Z) (a b r : Q) (body : BodyType) :
  tree_checked f = true ->
  idT f = Some i ->
  bodiesT f = Some body ->
  xT f = Some a ->
  yT f = Some b ->
  radiusT f = Some r ->
  ~ (r == 0)%Q ->
  map_has i (originalBodies f) = true ->
  let f' := addbutton_onclick new_Victor f in
  keys (originalBodies f') = keys (originalBodies f)
  /\ lastID f' = lastID f
  /\ map_get i (originalBodies f')
     = Some {| loc := {| x := Some a; y := Some b |};
               radius := Some r;
               type := TREE_NEUTRAL;
               containedBullets := bulletsT f;
               containedBody := body;
               teamID := None |}
  /\ (forall k, k <> i -> map_get k (originalBodies f') = map_get k (originalBodies f)).
Proof.
  intros Ht Hi Hb Hx Hy Hr Hr0 Hhas. cbv zeta.
  unfold addbutton_onclick. rewrite Ht, Hi, Hb, Hx, Hy, Hr. cbn [isNaN orb].
  unfold strict_eq, test2. apply Qeq_bool_false in Hr0. rewrite Hr0.
  unfold setUnit. rewrite Hhas. cbn.
  rewrite keys_map_set, Hhas, new_Victor_numbers.
  split; [reflexivity |]. split; [reflexivity |]. split.
  - rewrite map_get_set. now rewrite Z.eqb_refl.
  - intros k Hk. rewrite map_get_set.
    destruct (Z.eqb_spec i k); [congruence | reflexivity].
Qed.

(** X26.  Deleting a unit: when the label of the form shown holds an id,
    the original units have distinct ids and the symmetric units carry ids
    of original units only, Delete leaves no original and no symmetric
    unit under that id, keeps every other original unit, and keeps the
    next id. *)
Theorem delete_removes_unit (f : Form) (id : Z) :
  (if tree_checked f then idT f else idA f) = Some id ->
  List.NoDup (keys (originalBodies f)) ->
  incl (keys (symmetricBodies f)) (keys (originalBodies f)) ->
  let f' := deletebutton_onclick new_Victor f in
  map_get id (originalBodies f') = None
  /\ map_get id (symmetricBodies f') = None
  /\ (forall k, k <> id -> map_get k (originalBodies f') = map_get k (originalBodies f))
  /\ lastID f' = lastID f.
Proof.
  intros Hl Hnd Hincl. cbv zeta. unfold deletebutton_onclick. rewrite Hl.
  unfold deleteUnit. destruct (map_has id (originalBodies f)) eqn:E.
  - unfold render. cbn [originalBodies symmetricBodies lastID set_store].
    assert (Hnd' : List.NoDup (keys (map_delete id (originalBodies f))))
      by now apply NoDup_keys_map_delete.
    assert (Hgone : map_get id (map_delete id (originalBodies f)) = None).
    { rewrite map_get_delete by exact Hnd. now rewrite Z.eqb_refl. }
    split; [exact Hgone |]. split; [| split; [| reflexivity]].
    + rewrite getSymmetricBodies_mirrors by exact Hnd'.
      cbn [originalBodies set_store].
      rewrite map_get_mirrors by exact Hnd'. now rewrite Hgone.
    + intros k Hk. rewrite map_get_delete by exact Hnd.
      destruct (Z.eqb_spec id k); [congruence | reflexivity].
  - apply map_has_false in E.
    split; [now apply map_get_none |]. split; [| split; [| reflexivity]].
    + apply map_get_none. intros Hin. apply E. now apply Hincl.
    + reflexivity.
Qed.

End MapEditorFacts.

(** * The map editor on concrete forms *)

Lemma victor_js_numbers (a b : Q) :
  MapEditor.victor_js (Some a) (Some b)
  = {| MapEditor.x := Some a; MapEditor.y := Some b |}.
Proof. reflexivity. Qed.


Lemma one_tree_keys : List.NoDup (MapEditor.keys (MapEditor.originalBodies MapEditor.one_tree)).
Proof. repeat constructor. intros []. Qed.

(** The tree at (10, 20) has its mirror stored under the same id. *)
Lemma symmetric_bodies_of_one_tree :
  List.NoDup (MapEditor.keys (MapEditor.originalBodies MapEditor.one_tree))
  /\ MapEditor.map_get 1
       (MapEditor.symmetricBodies (MapEditor.render MapEditor.victor_js MapEditor.one_tree))
     = MapEditor.map_get 1 (MapEditor.symmetricBodies MapEditor.one_tree).
Proof.
  split; [exact one_tree_keys |].
  rewrite (symmetric_bodies_lookup MapEditor.victor_js MapEditor.one_tree 1 one_tree_keys).
  reflexivity.
Defined.

(** After adding a tree, selecting it, deleting it and adding it again
    the next id is 3 and the only unit has id 1. *)
Lemma unit_ids_after_delete_and_add :
  let f := MapEditor.sample_run
             [MapEditor.ClickBlank {| MapEditor.x := Some 10%Q; MapEditor.y := Some 20%Q |};
              MapEditor.ClickAdd; MapEditor.ClickUnit 1; MapEditor.ClickDelete;
              MapEditor.ClickAdd] in
  MapEditor.lastID f = 3
  /\ MapEditor.keys (MapEditor.originalBodies f) = [1]
  /\ MapEditor.map_has (MapEditor.lastID f) (MapEditor.originalBodies f) = false.
Proof.
  cbv zeta. split; [reflexivity |]. split; [reflexivity |].
  exact (proj1 (proj2 (proj2
           (unit_ids_fresh 30 100 0.0001 2 MapEditor.victor_js MapEditor.taxicab
              victor_js_numbers
              [MapEditor.ClickBlank {| MapEditor.x := Some 10%Q; MapEditor.y := Some 20%Q |};
               MapEditor.ClickAdd; MapEditor.ClickUnit 1; MapEditor.ClickDelete;
               MapEditor.ClickAdd])))).
Defined.

(** The tree of [one_tree] is well formed. *)
Lemma one_tree_well_formed :
  exists u,
    In (1, u) (MapEditor.originalBodies MapEditor.one_tree)
    /\ MapEditor.type u = TREE_NEUTRAL
    /\ exists r, MapEditor.radius u = Some r /\ ~ (r == 0)%Q.
Proof.
  eexists. split; [left; reflexivity |]. split; [reflexivity |].
  refine (proj1 (proj2
            (stored_units_well_formed 30 100 0.0001 2 MapEditor.victor_js MapEditor.taxicab
               victor_js_numbers
               [MapEditor.ClickBlank {| MapEditor.x := Some 10%Q; MapEditor.y := Some 20%Q |};
                MapEditor.ClickAdd] 1 _ _))).
  left. reflexivity.
Defined.

Lemma one_tree_mirror_keys :
  List.NoDup (MapEditor.keys (MapEditor.symmetricBodies MapEditor.one_tree)).
Proof. repeat constructor. intros []. Qed.

(** The tree and its mirror are exported under 2 and 3. *)
Lemma bodies_of_one_tree :
  MapEditor.keys (snd (MapEditor.bodies MapEditor.one_tree)) = [2; 3]
  /\ length (snd (MapEditor.bodies MapEditor.one_tree)) = 2%nat.
Proof.
  split; [reflexivity |].
  exact (proj1 (proj2 (proj2
           (bodies_numbering MapEditor.one_tree one_tree_keys one_tree_mirror_keys)))).
Defined.

(** A width typed as 500 is brought back to 100. *)
Lemma width_500_becomes_100 :
  exists w,
    MapEditor.width
      (MapEditor.widthGM_onchange 30 100 MapEditor.victor_js
         (MapEditor.type_into MapEditor.FWidth (Some 500%Q) MapEditor.initial))
    = Some w
    /\ (30 <= w)%Q /\ (w <= 100)%Q.
Proof.
  destruct (dimension_onchange_in_range 30 100 MapEditor.victor_js
              (MapEditor.type_into MapEditor.FWidth (Some 500%Q) MapEditor.initial))
    as [(w & Hw & _ & Hr) _].
  - discriminate.
  - exists w. split; [exact Hw |].
    destruct (Hr 500%Q eq_refl) as (H1 & H2 & _). now split.
Defined.

(** The form filled in by hand adds its tree under id 1. *)
Lemma add_typed_tree :
  MapEditor.keys
    (MapEditor.originalBodies
       (MapEditor.addbutton_onclick MapEditor.victor_js MapEditor.tree_typed))
  = [1]
  /\ MapEditor.lastID
       (MapEditor.addbutton_onclick MapEditor.victor_js MapEditor.tree_typed) = 2.
Proof.
  destruct (add_new_tree MapEditor.victor_js victor_js_numbers MapEditor.tree_typed
              10 20 3 ARCHON) as (Ho & Hl & _); try reflexivity.
  - discriminate.
  - split; [now rewrite Ho | exact Hl].
Defined.

(** The constructor's form has empty X and Y fields: Add/Update does
    nothing. *)
Lemma add_on_empty_form :
  MapEditor.xT MapEditor.initial = None
  /\ MapEditor.addbutton_onclick MapEditor.victor_js MapEditor.initial
     = MapEditor.initial.
Proof.
  split; [reflexivity |].
  apply (add_rejects_invalid_input MapEditor.victor_js MapEditor.initial).
  reflexivity.
Defined.

(** The selected tree is updated in place: still one unit, next id 2. *)
Lemma update_selected_tree :
  MapEditor.keys
    (MapEditor.originalBodies
       (MapEditor.addbutton_onclick MapEditor.victor_js MapEditor.tree_selected))
  = [1]
  /\ MapEditor.lastID
       (MapEditor.addbutton_onclick MapEditor.victor_js MapEditor.tree_selected) = 2.
Proof.
  destruct (update_existing_tree MapEditor.victor_js victor_js_numbers
              MapEditor.tree_selected 1 10 20 9.9999 ARCHON)
    as (Hk & Hl & _); try reflexivity.
  - discriminate.
  - split; [now rewrite Hk | exact Hl].
Defined.

(** Deleting the selected tree leaves nothing under id 1. *)
Lemma delete_selected_tree :
  MapEditor.idT MapEditor.tree_selected = Some 1
  /\ MapEditor.originalBodies
       (MapEditor.deletebutton_onclick MapEditor.victor_js MapEditor.tree_selected) = []
  /\ MapEditor.map_get 1
       (MapEditor.symmetricBodies
          (MapEditor.deletebutton_onclick MapEditor.victor_js MapEditor.tree_selected))
     = None.
Proof.
  split; [reflexivity |]. split; [reflexivity |].
  destruct (delete_removes_unit MapEditor.victor_js MapEditor.tree_selected 1)
    as (_ & Hs & _).
  - reflexivity.
  - repeat constructor. intros [].
  - intros k Hk. exact Hk.
  - exact Hs.
Defined.

(** * The stats bar *)

Section StatsFacts.

Variable has_image : string -> Z -> bool.

Lemma robotTable_spec (inGameID : Z) :
  Stats.robotTable has_image inGameID
  = if Stats.images_complete has_image inGameID then inr tt else inl Stats.TypeError.
Proof.
  unfold Stats.robotTable, Stats.images_complete, Stats.robots.
  cbn [fold_left forallb Stats.bodyTypeToString].
  repeat (match goal with
          | |- context [has_image ?n ?i] =>
              destruct (has_image n i); cbn [andb]; try reflexivity
          end).
Qed.

Lemma images_complete_true (inGameID : Z) :
  Stats.images_complete has_image inGameID = true <->
  forall robot robotName,
    In robot Stats.robots -> Stats.bodyTypeToString robot = inr robotName ->
    has_image robotName inGameID = true.
Proof.
  unfold Stats.images_complete. rewrite forallb_forall. split.
  - intros H robot robotName Hin Hname. specialize (H robot Hin).
    rewrite Hname in H. exact H.
  - intros H robot Hin.
    destruct (Stats.bodyTypeToString robot) as [e | robotName] eqn:Hname.
    + cbn in Hin. intuition (subst; discriminate).
    + now apply (H robot).
Qed.

Lemma initialRobotCount_lookup (robot : BodyType) :
  Stats.initialRobotCount !! robot
  = if existsb (BodyType_eqb robot) Stats.robots then Some 0%Q else None.
Proof. destruct robot; vm_compute; reflexivity. Qed.

Lemma existsb_robots (robot : BodyType) :
  existsb (BodyType_eqb robot) Stats.robots = true <-> In robot Stats.robots.
Proof.
  destruct robot; cbn; split; intros H; try reflexivity; try discriminate;
    intuition (try discriminate; auto).
Qed.

Lemma add_teams_ok (teamIDs : list Z) :
  forall index s,
    (forall i, (i < length teamIDs)%nat ->
               Stats.images_complete has_image (index + Z.of_nat i + 1) = true) ->
    exists s',
      Stats.add_teams has_image index teamIDs s = inr s'
      /\ (forall t, In t teamIDs ->
                    Stats.robotTds s' !! t = Some Stats.initialRobotCount)
      /\ (forall t, ~ In t teamIDs ->
                    Stats.robotTds s' !! t = Stats.robotTds s !! t).
Proof.
  induction teamIDs as [| teamID rest IH]; intros index s Himg.
  - exists s. cbn. split; [reflexivity |]. split; [intros t [] | reflexivity].
  - cbn [Stats.add_teams]. rewrite robotTable_spec.
    assert (H0 : Stats.images_complete has_image (index + 1) = true).
    { replace (index + 1) with (index + Z.of_nat 0 + 1) by lia.
      apply Himg. cbn [length]. lia. }
    rewrite H0.
    destruct (IH (index + 1)
                (Stats.mkStats (<[teamID := Stats.initialRobotCount]> (Stats.robotTds s))
                               (<[teamID := Stats.initialStats]> (Stats.statTds s))))
      as (s' & Hrun & Hin & Hout).
    { intros i Hi. replace (index + 1 + Z.of_nat i + 1)
        with (index + Z.of_nat (S i) + 1) by lia.
      apply Himg. cbn. lia. }
    exists s'. split; [exact Hrun |]. split.
    + intros t Ht. destruct (in_dec Z.eq_dec t rest) as [Hr | Hr].
      * now apply Hin.
      * rewrite (Hout t Hr). cbn [Stats.robotTds].
        destruct Ht as [-> | Ht]; [| contradiction].
        apply lookup_insert_eq.
    + intros t Ht. rewrite Hout by (intros Hr; apply Ht; now right).
      cbn [Stats.robotTds]. apply lookup_insert_ne.
      intros ->. apply Ht. now left.
Qed.

Lemma add_teams_throws (teamIDs : list Z) :
  forall index s i,
    (i < length teamIDs)%nat ->
    Stats.images_complete has_image (index + Z.of_nat i + 1) = false ->
    Stats.add_teams has_image index teamIDs s = inl Stats.TypeError.
Proof.
  induction teamIDs as [| teamID rest IH]; intros index s i Hi Himg.
  - cbn in Hi. lia.
  - cbn [Stats.add_teams]. rewrite robotTable_spec.
    destruct (Stats.images_complete has_image (index + 1)) eqn:H0; [| reflexivity].
    destruct i as [| i].
    + replace (index + Z.of_nat 0 + 1) with (index + 1) in Himg by lia. congruence.
    + apply (IH _ _ i); [cbn in Hi; lia |].
      replace (index + 1 + Z.of_nat i + 1) with (index + Z.of_nat (S i) + 1) by lia.
      exact Himg.
Qed.

(** X27.  When there are as many team names as team ids and every robot type
    has an image for each in-game id 1, 2, ..., the constructor returns a
    stats bar, and the bar has a count cell exactly for every listed team id
    and every one of the seven robot types, each showing 0; tree types and
    other team ids have no cell. *)
Theorem constructor_tables (teamNames : list string) (teamIDs : list Z) :
  length teamNames = length teamIDs ->
  (forall i robot robotName,
      (i < length teamIDs)%nat -> In robot Stats.robots ->
      Stats.bodyTypeToString robot = inr robotName ->
      has_image robotName (Z.of_nat i + 1) = true) ->
  exists s,
    Stats.constructor has_image teamNames teamIDs = inr s
    /\ (forall t robot,
          In t teamIDs -> In robot Stats.robots ->
          Stats.robot_cell t robot s = Some 0%Q)
    /\ (forall t robot,
          ~ (In t teamIDs /\ In robot Stats.robots) ->
          Stats.robot_cell t robot s = None).
Proof.
  intros Hlen Himg. unfold Stats.constructor.
  rewrite Hlen, Nat.eqb_refl. cbn [negb].
  destruct (add_teams_ok teamIDs 0 (Stats.mkStats ∅ ∅)) as (s & Hrun & Hin & Hout).
  { intros i Hi. apply images_complete_true. intros robot robotName Hr Hname.
    replace (0 + Z.of_nat i + 1) with (Z.of_nat i + 1) by lia.
    now apply (Himg i robot robotName). }
  exists s. split; [exact Hrun |]. split.
  - intros t robot Ht Hr. unfold Stats.robot_cell. rewrite (Hin t Ht).
    rewrite initialRobotCount_lookup.
    apply existsb_robots in Hr. now rewrite Hr.
  - intros t robot Hno. unfold Stats.robot_cell.
    destruct (in_dec Z.eq_dec t teamIDs) as [Ht | Ht].
    + rewrite (Hin t Ht), initialRobotCount_lookup.
      destruct (existsb (BodyType_eqb robot) Stats.robots) eqn:Hr; [| reflexivity].
      apply existsb_robots in Hr. exfalso. apply Hno. now split.
    + rewrite (Hout t Ht). cbn [Stats.robotTds]. now rewrite lookup_empty.
Qed.

(** X28.  The constructor throws in exactly two ways: with the message about
    the numbers of names and ids when the two lists differ in length, whatever
    the images are, and with a [TypeError] when the lengths agree but some
    robot type has no image for one of the in-game ids. *)
Theorem constructor_throws (teamNames : list string) (teamIDs : list Z) :
  length teamNames <> length teamIDs
  \/ (exists i robot robotName,
        (i < length teamIDs)%nat /\ In robot Stats.robots
        /\ Stats.bodyTypeToString robot = inr robotName
        /\ has_image robotName (Z.of_nat i + 1) = false) ->
  Stats.constructor has_image teamNames teamIDs
  = inl (if (length teamNames =? length teamIDs)%nat
         then Stats.TypeError
         else Stats.Error "different number of team names and team IDs").
Proof.
  intros H. unfold Stats.constructor.
  destruct (length teamNames =? length teamIDs)%nat eqn:Hlen; cbn [negb];
    [| reflexivity].
  destruct H as [H | (i & robot & robotName & Hi & Hr & Hname & Himg)].
  - apply Nat.eqb_eq in Hlen. contradiction.
  - apply (add_teams_throws teamIDs 0 _ i Hi).
    destruct (Stats.images_complete has_image (0 + Z.of_nat i + 1)) eqn:Hc; [| reflexivity].
    rewrite images_complete_true in Hc.
    replace (0 + Z.of_nat i + 1) with (Z.of_nat i + 1) in Hc by lia.
    rewrite (Hc robot robotName Hr Hname) in Himg. discriminate.
Qed.

End StatsFacts.

(** X29.  [setRobotCount] on an existing cell makes that cell show the count
    and leaves every other cell, and the absence of every other cell, as it
    was; on a team id or a robot type that has no cell it throws a
    [TypeError]. *)
Theorem setRobotCount_cells (teamID : Z) (robotType : BodyType) (count : Q)
    (s : Stats.Stats) :
  (Stats.robot_cell teamID robotType s = None ->
   Stats.setRobotCount teamID robotType count s = inl Stats.TypeError)
  /\ (Stats.robot_cell teamID robotType s <> None ->
      exists s',
        Stats.setRobotCount teamID robotType count s = inr s'
        /\ Stats.robot_cell teamID robotType s' = Some count
        /\ forall t robot,
             (t, robot) <> (teamID, robotType) ->
             Stats.robot_cell t robot s' = Stats.robot_cell t robot s).
Proof.
  unfold Stats.setRobotCount, Stats.robot_cell.
  destruct (Stats.robotTds s !! teamID) as [row |] eqn:Hrow.
  - destruct (row !! robotType) as [old |] eqn:Hcell.
    + split; [discriminate |]. intros _. eexists. split; [reflexivity |].
      cbn [Stats.robotTds]. split.
      * now rewrite lookup_insert_eq, lookup_insert_eq.
      * intros t robot Hne. destruct (Z.eq_dec t teamID) as [-> | Ht].
        -- rewrite lookup_insert_eq, Hrow. apply lookup_insert_ne.
           intros ->. now apply Hne.
        -- now rewrite lookup_insert_ne by congruence.
    + split; [reflexivity | intros H; now destruct H].
  - split; [reflexivity | intros H; now destruct H].
Qed.

(** Two teams, every image loaded. *)
Lemma constructor_of_two_teams :
  length ["Teh Devs"; "Others"] = length [7; 9]
  /\ exists s,
       Stats.constructor (fun _ _ => true) ["Teh Devs"; "Others"] [7; 9] = inr s
       /\ Stats.robot_cell 9 SCOUT s = Some 0%Q
       /\ Stats.robot_cell 9 TREE_NEUTRAL s = None
       /\ Stats.robot_cell 8 SCOUT s = None.
Proof.
  split; [reflexivity |].
  destruct (constructor_tables (fun _ _ => true) ["Teh Devs"; "Others"] [7; 9])
    as (s & Hrun & Hin & Hout); [reflexivity | reflexivity |].
  exists s. split; [exact Hrun |]. split; [| split].
  - apply Hin; cbn; tauto.
  - apply Hout. cbn. intuition discriminate.
  - apply Hout. cbn. intuition lia.
Defined.

(** One name for two team ids; the second team's tank image missing. *)
Lemma constructor_throws_twice :
  Stats.constructor (fun _ _ => true) ["Teh Devs"] [7; 9]
  = inl (Stats.Error "different number of team names and team IDs")
  /\ Stats.constructor (fun name id => negb (String.eqb name "tank" && (id =? 2)))
       ["Teh Devs"; "Others"] [7; 9]
     = inl Stats.TypeError.
Proof.
  split.
  - apply (constructor_throws (fun _ _ => true) ["Teh Devs"] [7; 9]).
    left. cbn. lia.
  - apply (constructor_throws _ ["Teh Devs"; "Others"] [7; 9]).
    right. exists 1%nat, TANK, "tank". cbn. repeat split; [lia | tauto].
Defined.
